(** * The dnsconfd DNS plugin of NetworkManager

    A shallow embedding of [src/core/dns/nm-dns-dnsconfd.c] and the
    properties of its message builder, its name-owner tracking and its
    single outstanding [Update] call.

    The file has two layers.  The first is the message builder
    ([parse_global_config], [parse_all_interface_config] and the helpers
    they call), modelled over an explicit [GVariantBuilder].  The second is
    the plugin object: its private data, the callbacks the main loop
    delivers to it, and a transition system for the main loop itself. *)

From Stdlib Require Import ZArith Ascii DecimalString.
From stdpp Require Import base tactics option list strings gmap.

#[local] Set Warnings "-clear-no-such-hyp".


(** ** Values placed on the wire *)

Inductive AddrFamily := AF_UNSPEC | AF_INET | AF_INET6.

Inductive NMDnsUriScheme :=
| NM_DNS_URI_SCHEME_NONE
| NM_DNS_URI_SCHEME_UDP
| NM_DNS_URI_SCHEME_TLS.

(** [NMDnsServer]: what [nm_dns_uri_parse] fills in.  [addr] is the storage of
    the [NMIPAddr] union, of which the first [nm_utils_addr_family_to_size]
    bytes are meaningful. *)
Record NMDnsServer := {
  scheme : NMDnsUriScheme;
  dns_addr_family : AddrFamily;
  addr : list Byte.byte;
  servername : option string
}.

(** The [GVariant] values this file builds: ["s"], ["as"] and ["ay"]. *)
Inductive GVariant :=
| VString (s : string)
| VStrv (l : list string)
| VBytes (l : list Byte.byte).

(** One ["a{sv}"] dictionary, in insertion order. *)
Definition Dict := list (string * GVariant).

(** The argument of the [Update] method, of type ["(aa{sv}u)"]. *)
Record UpdateArgs := {
  servers : list Dict;
  resolve_mode : Z
}.

(** The part of a [GVariantBuilder] that varies while the array ["aa{sv}"] is
    being filled: the dictionaries already closed, and the one that is open. *)
Record GVariantBuilder := {
  children : list Dict;
  open_dict : option Dict
}.

Definition g_variant_builder_init : GVariantBuilder :=
  {| children := []; open_dict := None |}.

Definition g_variant_builder_open (b : GVariantBuilder) : GVariantBuilder :=
  {| children := children b; open_dict := Some [] |}.

Definition g_variant_builder_add (b : GVariantBuilder) (key : string) (v : GVariant)
  : GVariantBuilder :=
  match open_dict b with
  | Some d => {| children := children b; open_dict := Some (d ++ [(key, v)]) |}
  | None => b
  end.

Definition g_variant_builder_close (b : GVariantBuilder) : GVariantBuilder :=
  match open_dict b with
  | Some d => {| children := children b ++ [d]; open_dict := None |}
  | None => b
  end.

Definition g_variant_builder_end (b : GVariantBuilder) (mode : Z) : UpdateArgs :=
  {| servers := children b; resolve_mode := mode |}.

(** ** Configuration handed to [update] *)

Record NMPlatformIPRoute := {
  network : list Byte.byte;
  plen : nat;
  table_coerced : Z
}.

(** One [NMDnsConfigIPData] together with what the collaborators return for it:
    the accessors of its [l3cd] at its own address family, and the metadata
    looked up through its [ifindex]. *)
Record NMDnsConfigIPData := {
  addr_family : AddrFamily;
  nameservers : list string;
  searches : list string;
  domains : list string;
  best_default_route : bool;
  routes : list NMPlatformIPRoute;
  ifname : option string;
  connection_id : option string;
  connection_uuid : option string;
  dbus_path : option string
}.

Record NMGlobalDnsDomain := {
  domain_name : string;
  domain_servers : option (list string)
}.

Record NMGlobalDnsConfig := {
  global_searches : option (list string);
  certification_authority : option string;
  global_resolve_mode : Z;
  global_domains : list NMGlobalDnsDomain
}.

(** ** Collaborators

    Functions and constants of NetworkManager and libc that the file calls but
    does not define. *)
Class Collaborators := {
  nm_dns_uri_parse : AddrFamily -> string -> option NMDnsServer;
  inet_ntop : AddrFamily -> list Byte.byte -> string;
  NM_DNS_ROUTES_FWMARK_TABLE_PRIO : Z
}.

(** Modelled from the spec: [nm_utils_parse_dns_domain] of libnm-core, which
    classifies an entry as routing-only by its syntactic marker, a leading
    [~], and returns the domain without the marker.  The empty string, which
    the function refuses and an [l3cd] never holds, is returned as it is. *)
Definition nm_utils_parse_dns_domain (domain : string) : string * bool :=
  match domain with
  | String "~"%char rest => (rest, true)
  | _ => (domain, false)
  end.

(** Modelled from the spec: the macro [nm_streq] of libnm-std-aux, equality of
    two strings. *)
Definition nm_streq (a b : string) : bool := String.eqb a b.

(** Modelled from the spec: [nm_utils_addr_family_to_size] of libnm-std-aux,
    the length of the raw address bytes of a family: 4 for IPv4, 16 for IPv6. *)
Definition nm_utils_addr_family_to_size (af : AddrFamily) : nat :=
  match af with
  | AF_INET => 4
  | AF_INET6 => 16
  | AF_UNSPEC => 0
  end.

(** Modelled from the spec: the macro [NM_PLATFORM_IP_ROUTE_IS_DEFAULT] of
    libnm-platform, which tells the default routes: prefix length zero. *)
Definition NM_PLATFORM_IP_ROUTE_IS_DEFAULT (r : NMPlatformIPRoute) : bool :=
  Nat.eqb (plen r) 0.

(** A [GPtrArray] given away with [g_ptr_array_free]: [NULL] when it holds the
    terminator only. *)
Definition strv_or_null (l : list string) : option (list string) :=
  match l with
  | [] => None
  | _ => Some l
  end.

(** ** The message builder *)

Section Builder.
Context {ext : Collaborators}.

Definition is_default_interface_explicit (ip_data_lst : list NMDnsConfigIPData) : bool :=
  existsb
    (fun ip_data =>
       existsb (fun d => nm_streq (fst (nm_utils_parse_dns_domain d)) ".")
               (searches ip_data))
    ip_data_lst.

(** The body of the loop of [gather_interface_domains] over one entry. *)
Definition gather_step (acc : list string * list string) (d : string)
  : list string * list string :=
  let '(cur_domain, is_routing) := nm_utils_parse_dns_domain d in
  let routing := fst acc ++ [cur_domain] in
  if is_routing then (routing, snd acc) else (routing, snd acc ++ [cur_domain]).

Definition gather_interface_domains (ip_data : NMDnsConfigIPData)
    (is_default_explicit : bool) : option (list string) * option (list string) :=
  let strv_domains :=
    match searches ip_data with
    | [] => domains ip_data
    | _ => searches ip_data
    end in
  let '(routing, search) := fold_left gather_step strv_domains ([], []) in
  let routing :=
    if negb is_default_explicit && best_default_route ip_data
    then routing ++ ["."] else routing in
  (strv_or_null routing, strv_or_null search).

Definition format_network (af : AddrFamily) (r : NMPlatformIPRoute) : string :=
  inet_ntop af (network r) +:+ "/" +:+ NilEmpty.string_of_uint (Nat.to_uint (plen r)).

Definition get_networks (ip_data : NMDnsConfigIPData) : option (list string) :=
  strv_or_null
    (fold_left
       (fun acc r =>
          if NM_PLATFORM_IP_ROUTE_IS_DEFAULT r
             || Z.eqb (table_coerced r) NM_DNS_ROUTES_FWMARK_TABLE_PRIO
          then acc
          else acc ++ [format_network (addr_family ip_data) r])
       (routes ip_data) []).

(** [if (x) g_variant_builder_add(...)] for an optional argument. *)
Definition add_if_set {A} (b : GVariantBuilder) (key : string)
    (mk : A -> GVariant) (x : option A) : GVariantBuilder :=
  match x with
  | Some a => g_variant_builder_add b key (mk a)
  | None => b
  end.

Definition server_builder_append_interface_info (b : GVariantBuilder)
    (interface : option string) (networks : option (list string))
    (conn_id conn_uuid path : option string) : GVariantBuilder :=
  let b := add_if_set b "connection-id" VString conn_id in
  let b := add_if_set b "connection-uuid" VString conn_uuid in
  let b := add_if_set b "connection-object" VString path in
  let b := add_if_set b "interface" VString interface in
  let b := add_if_set b "networks" VStrv networks in
  g_variant_builder_close b.

Definition server_builder_append_base (b : GVariantBuilder)
    (address_family : AddrFamily) (address_string : string)
    (routing_domains search_domains : option (list string))
    (ca : option string) : bool * GVariantBuilder :=
  match nm_dns_uri_parse address_family address_string with
  | None => (false, b)
  | Some dns_server =>
      let addr_size := nm_utils_addr_family_to_size (dns_addr_family dns_server) in
      let b := g_variant_builder_open b in
      let b := g_variant_builder_add b "address"
                 (VBytes (firstn addr_size (addr dns_server))) in
      let b := match scheme dns_server with
               | NM_DNS_URI_SCHEME_TLS =>
                   g_variant_builder_add b "protocol" (VString "dns+tls")
               | _ => b
               end in
      let b := add_if_set b "name" VString (servername dns_server) in
      let b := add_if_set b "routing_domains" VStrv routing_domains in
      let b := add_if_set b "search_domains" VStrv search_domains in
      let b := add_if_set b "ca" VString ca in
      (true, b)
  end.

(** The inner loop of [parse_global_config], over the servers of one domain. *)
Definition global_server_step (routing_domains searches : option (list string))
    (ca : option string) (b : GVariantBuilder) (server : string) : GVariantBuilder :=
  let '(ok, b) :=
    server_builder_append_base b AF_UNSPEC server routing_domains searches ca in
  if ok then g_variant_builder_close b else b.

(** The outer loop of [parse_global_config], over the domains. *)
Definition global_domain_step (searches : option (list string)) (ca : option string)
    (b : GVariantBuilder) (domain : NMGlobalDnsDomain) : GVariantBuilder :=
  match domain_servers domain with
  | None => b
  | Some servers =>
      let name := domain_name domain in
      let routing_domains := [if nm_streq name "*" then "." else name] in
      fold_left (global_server_step (Some routing_domains) searches ca) servers b
  end.

(** Returns the builder together with the out-parameters [resolve_mode] and
    [ca]. *)
Definition parse_global_config (global_config : NMGlobalDnsConfig)
    (b : GVariantBuilder) : GVariantBuilder * Z * option string :=
  let searches := global_searches global_config in
  let ca := certification_authority global_config in
  let mode := global_resolve_mode global_config in
  (fold_left (global_domain_step searches ca) (global_domains global_config) b,
   mode, ca).

(** The inner loop of [parse_all_interface_config], over the nameservers. *)
Definition interface_server_step (ip_data : NMDnsConfigIPData)
    (routing_domains search_domains networks : option (list string))
    (ca : option string) (b : GVariantBuilder) (server : string) : GVariantBuilder :=
  let '(ok, b) :=
    server_builder_append_base b (addr_family ip_data) server
      routing_domains search_domains ca in
  if ok
  then server_builder_append_interface_info b (ifname ip_data) networks
         (connection_id ip_data) (connection_uuid ip_data) (dbus_path ip_data)
  else b.

Definition interface_step (explicit_default : bool) (ca : option string)
    (b : GVariantBuilder) (ip_data : NMDnsConfigIPData) : GVariantBuilder :=
  match nameservers ip_data with
  | [] => b
  | dns_server_strings =>
      let '(routing_domains, search_domains) :=
        gather_interface_domains ip_data explicit_default in
      let networks := get_networks ip_data in
      fold_left
        (interface_server_step ip_data routing_domains search_domains networks ca)
        dns_server_strings b
  end.

Definition parse_all_interface_config (b : GVariantBuilder)
    (ip_data_lst : list NMDnsConfigIPData) (ca : option string) : GVariantBuilder :=
  let explicit_default := is_default_interface_explicit ip_data_lst in
  fold_left (interface_step explicit_default ca) ip_data_lst b.

(** The part of [update] that builds [args]. *)
Definition build_update_args (global_config : option NMGlobalDnsConfig)
    (ip_data_lst : list NMDnsConfigIPData) : UpdateArgs :=
  let b := g_variant_builder_init in
  let '(b, mode, ca) :=
    match global_config with
    | Some g => parse_global_config g b
    | None => (b, 0%Z, None)
    end in
  let b := parse_all_interface_config b ip_data_lst ca in
  g_variant_builder_end b mode.

End Builder.

(** ** The plugin object *)

(** Objects of the GLib heap are known by their identity. *)
Definition GCancellable := nat.
Definition GDBusConnection := nat.

Inductive GQuark := G_IO_ERROR | G_DBUS_ERROR | NM_UTILS_ERROR.

Record GError := {
  domain : GQuark;
  code : Z;
  message : string
}.

Definition G_IO_ERROR_CANCELLED : Z := 19.
Definition G_IO_ERROR_TIMED_OUT : Z := 24.
Definition NM_UTILS_ERROR_UNKNOWN : Z := 0.

Definition quark_eqb (a b : GQuark) : bool :=
  match a, b with
  | G_IO_ERROR, G_IO_ERROR | G_DBUS_ERROR, G_DBUS_ERROR
  | NM_UTILS_ERROR, NM_UTILS_ERROR => true
  | _, _ => false
  end.

(** [g_error_matches] of GLib: the error is set and has this domain and code. *)
Definition g_error_matches (error : option GError) (d : GQuark) (c : Z) : bool :=
  match error with
  | Some e => quark_eqb (domain e) d && Z.eqb (code e) c
  | None => false
  end.

(** Modelled from the spec: [nm_utils_error_is_cancelled] of libnm-glib-aux,
    by which a completion callback observes the cancellation of its call: the
    error is [G_IO_ERROR_CANCELLED]. *)
Definition nm_utils_error_is_cancelled (error : option GError) : bool :=
  g_error_matches error G_IO_ERROR G_IO_ERROR_CANCELLED.

(** Modelled from the spec: [nm_str_not_empty] of libnm-std-aux, by which the
    empty string is normalized to absent. *)
Definition nm_str_not_empty (s : option string) : option string :=
  match s with
  | Some EmptyString => None
  | _ => s
  end.

(** Modelled from the spec: the macro [nm_streq0] of libnm-std-aux, equality of
    two strings either of which may be absent. *)
Definition nm_streq0 (a b : option string) : bool :=
  match a, b with
  | None, None => true
  | Some x, Some y => String.eqb x y
  | _, _ => false
  end.

Record NMDnsDnsconfdPrivate := mkPriv {
  dbus_connection : option GDBusConnection;
  update_cancellable : option GCancellable;
  name_owner : option string;
  name_owner_changed_id : nat;
  name_owner_cancellable : option GCancellable;
  latest_update_args : option UpdateArgs
}.

(** What [g_object_new] hands to [nm_dns_dnsconfd_init]: zeroes. *)
Definition priv_init : NMDnsDnsconfdPrivate :=
  {| dbus_connection := None; update_cancellable := None; name_owner := None;
     name_owner_changed_id := 0; name_owner_cancellable := None;
     latest_update_args := None |}.

Definition set_dbus_connection (v : option GDBusConnection) (p : NMDnsDnsconfdPrivate) :=
  {| dbus_connection := v; update_cancellable := update_cancellable p;
     name_owner := name_owner p; name_owner_changed_id := name_owner_changed_id p;
     name_owner_cancellable := name_owner_cancellable p;
     latest_update_args := latest_update_args p |}.

Definition set_update_cancellable (v : option GCancellable) (p : NMDnsDnsconfdPrivate) :=
  {| dbus_connection := dbus_connection p; update_cancellable := v;
     name_owner := name_owner p; name_owner_changed_id := name_owner_changed_id p;
     name_owner_cancellable := name_owner_cancellable p;
     latest_update_args := latest_update_args p |}.

Definition set_name_owner (v : option string) (p : NMDnsDnsconfdPrivate) :=
  {| dbus_connection := dbus_connection p; update_cancellable := update_cancellable p;
     name_owner := v; name_owner_changed_id := name_owner_changed_id p;
     name_owner_cancellable := name_owner_cancellable p;
     latest_update_args := latest_update_args p |}.

Definition set_name_owner_changed_id (v : nat) (p : NMDnsDnsconfdPrivate) :=
  {| dbus_connection := dbus_connection p; update_cancellable := update_cancellable p;
     name_owner := name_owner p; name_owner_changed_id := v;
     name_owner_cancellable := name_owner_cancellable p;
     latest_update_args := latest_update_args p |}.

Definition set_name_owner_cancellable (v : option GCancellable) (p : NMDnsDnsconfdPrivate) :=
  {| dbus_connection := dbus_connection p; update_cancellable := update_cancellable p;
     name_owner := name_owner p; name_owner_changed_id := name_owner_changed_id p;
     name_owner_cancellable := v;
     latest_update_args := latest_update_args p |}.

Definition set_latest_update_args (v : option UpdateArgs) (p : NMDnsDnsconfdPrivate) :=
  {| dbus_connection := dbus_connection p; update_cancellable := update_cancellable p;
     name_owner := name_owner p; name_owner_changed_id := name_owner_changed_id p;
     name_owner_cancellable := name_owner_cancellable p;
     latest_update_args := v |}.

Inductive NMLogLevel := LOGL_TRACE | LOGL_DEBUG | LOGL_INFO | LOGL_WARN | LOGL_ERR.

(** What the plugin does to the world outside its private data. *)
Inductive Effect :=
| ECancel (c : GCancellable)
| EDBusCall (conn : option GDBusConnection) (bus_name : option string)
            (args : option UpdateArgs) (c : GCancellable)
| ESubscribe (conn : option GDBusConnection) (id : nat)
| EUnsubscribe (conn : option GDBusConnection) (id : nat)
| EGetNameOwner (conn : option GDBusConnection) (c : GCancellable)
| ELog (level : NMLogLevel) (text : string)
| ELogArgs (level : NMLogLevel) (text : string) (args : UpdateArgs)
| EPendingMaybeChanged (pending : bool).

(** Where a callback leaves defined behaviour. *)
Inductive Fault :=
| FaultNullVariant
| FaultNullError.

(** *** A state and fault monad for the callbacks

    A callback runs over the private data, the counter from which GLib hands
    out fresh objects and subscription ids, and the effects emitted so far.
    After a fault nothing more is executed. *)
Record St := mkSt {
  priv : NMDnsDnsconfdPrivate;
  fresh : nat;
  trace : list Effect
}.

Inductive Res (A : Type) :=
| Ok (a : A)
| Faulted (f : Fault).
Arguments Ok {A} a.
Arguments Faulted {A} f.

Definition M (A : Type) := St -> Res A * St.

Definition ret {A} (a : A) : M A := fun s => (Ok a, s).

Definition bind {A B} (k : A -> M B) (m : M A) : M B :=
  fun s =>
    match m s with
    | (Ok a, s') => k a s'
    | (Faulted f, s') => (Faulted f, s')
    end.

#[export] Instance M_ret : MRet M := @ret.
#[export] Instance M_bind : MBind M := @bind.

Definition get_priv : M NMDnsDnsconfdPrivate := fun s => (Ok (priv s), s).

Definition modify (f : NMDnsDnsconfdPrivate -> NMDnsDnsconfdPrivate) : M unit :=
  fun s => (Ok tt, {| priv := f (priv s); fresh := fresh s; trace := trace s |}).

Definition emit (e : Effect) : M unit :=
  fun s => (Ok tt, {| priv := priv s; fresh := fresh s; trace := trace s ++ [e] |}).

Definition fault {A} (f : Fault) : M A := fun s => (Faulted f, s).

(** A fresh object or subscription id: never zero, never handed out before. *)
Definition new_id : M nat :=
  fun s => (Ok (S (fresh s)),
            {| priv := priv s; fresh := S (fresh s); trace := trace s |}).

Definition when (c : bool) (m : M unit) : M unit := if c then m else ret tt.

Definition _LOGT (text : string) : M unit := emit (ELog LOGL_TRACE text).
Definition _LOGD (text : string) : M unit := emit (ELog LOGL_DEBUG text).
Definition _LOGW (text : string) : M unit := emit (ELog LOGL_WARN text).

(** *** Helpers of libnm-glib-aux and of the parent class *)

(** The address of a field of the private data, as [&priv->field]. *)
Record Field (A : Type) := {
  fget : NMDnsDnsconfdPrivate -> A;
  fset : A -> NMDnsDnsconfdPrivate -> NMDnsDnsconfdPrivate
}.
Arguments fget {A} f p.
Arguments fset {A} f v p.

Definition update_cancellable_ptr : Field (option GCancellable) :=
  {| fget := update_cancellable; fset := set_update_cancellable |}.

Definition name_owner_cancellable_ptr : Field (option GCancellable) :=
  {| fget := name_owner_cancellable; fset := set_name_owner_cancellable |}.

Definition g_cancellable_new : M GCancellable := new_id.

(** Modelled from the spec: [nm_clear_g_cancellable] of libnm-glib-aux, which
    "checks whether the variable != NULL" and then resets the field and cancels
    the cancellable it held. *)
Definition nm_clear_g_cancellable (f : Field (option GCancellable)) : M unit :=
  p ← get_priv;
  match fget f p with
  | Some v => modify (fset f None);; emit (ECancel v)
  | None => mret tt
  end.

(** Modelled from the spec: [nm_clear_g_dbus_connection_signal] of
    libnm-glib-aux, which removes the subscription whose id the field holds and
    zeroes the field; a zero id means no subscription. *)
Definition nm_clear_g_dbus_connection_signal (conn : option GDBusConnection) : M unit :=
  p ← get_priv;
  match name_owner_changed_id p with
  | 0 => mret tt
  | S _ as v => modify (set_name_owner_changed_id 0);; emit (EUnsubscribe conn v)
  end.

(** Modelled from the spec: [nm_dbus_connection_signal_subscribe_name_owner_changed]
    of libnm-glib-aux, which subscribes to the ownership-change notifications
    of a bus name and returns the id of the subscription. *)
Definition nm_dbus_connection_signal_subscribe_name_owner_changed
    (conn : option GDBusConnection) : M nat :=
  id ← new_id;
  emit (ESubscribe conn id);;
  mret id.

(** Modelled from the spec: [nm_dbus_connection_call_get_name_owner] of
    libnm-glib-aux, which starts the lookup of the current owner of a bus
    name. *)
Definition nm_dbus_connection_call_get_name_owner (conn : option GDBusConnection)
    (c : GCancellable) : M unit :=
  emit (EGetNameOwner conn c).

(** [g_variant_get (response, "(b&s)", ...)]: reading a [NULL] variant is a
    fault. *)
Definition g_variant_get (response : option (bool * string)) : M (bool * string) :=
  match response with
  | Some r => mret r
  | None => fault FaultNullVariant
  end.

(** [error->message]. *)
Definition error_message (error : option GError) : M string :=
  match error with
  | Some e => mret (message e)
  | None => fault FaultNullError
  end.

Definition _update_pending_detect : M bool :=
  p ← get_priv;
  match update_cancellable p with
  | Some _ => mret true
  | None => mret false
  end.

Definition get_update_pending : M bool := _update_pending_detect.

(** Modelled from the spec: [_nm_dns_plugin_update_pending_maybe_changed] of
    the parent class, which notifies the framework that the pending status,
    read through [get_update_pending], may have changed. *)
Definition _nm_dns_plugin_update_pending_maybe_changed : M unit :=
  pending ← get_update_pending;
  emit (EPendingMaybeChanged pending).

(** *** The functions of the plugin *)

Definition dnsconfd_update_done (response : option (bool * string))
    (error : option GError) : M unit :=
  if nm_utils_error_is_cancelled error then mret tt
  else
    nm_clear_g_cancellable update_cancellable_ptr;;
    match response with
    | None =>
        m ← error_message error;
        _LOGW ("dnsconfd update failed: " +:+ m)
    | Some _ => mret tt
    end;;
    r ← g_variant_get response;
    (let '(all_ok, dnsconfd_message) := r in
     if all_ok : bool then _LOGT "dnsconfd update successful"
     else _LOGW ("dnsconfd update failed: " +:+ dnsconfd_message));;
    _nm_dns_plugin_update_pending_maybe_changed.

Definition send_dnsconfd_update : M unit :=
  nm_clear_g_cancellable update_cancellable_ptr;;
  c ← g_cancellable_new;
  modify (set_update_cancellable (Some c));;
  p ← get_priv;
  emit (EDBusCall (dbus_connection p) (name_owner p) (latest_update_args p) c);;
  _nm_dns_plugin_update_pending_maybe_changed.

Definition name_owner_changed (name_owner_arg : option string) : M unit :=
  let new_owner := nm_str_not_empty name_owner_arg in
  p ← get_priv;
  if nm_streq0 (name_owner p) new_owner then mret tt
  else
    modify (set_name_owner new_owner);;
    match new_owner with
    | None => _LOGD "D-Bus name for dnsconfd disappeared"
    | Some o =>
        _LOGT ("D-Bus name for dnsconfd got owner " +:+ o);;
        send_dnsconfd_update;;
        _nm_dns_plugin_update_pending_maybe_changed
    end.

(** The [parameters] of a [NameOwnerChanged] signal: of type ["(sss)"], or of
    any other type. *)
Inductive SignalParameters :=
| ParametersSSS (name old_owner new_owner : string)
| ParametersOther.

Definition name_owner_changed_cb (parameters : SignalParameters) : M unit :=
  match parameters with
  | ParametersOther => mret tt
  | ParametersSSS _ _ new_owner => name_owner_changed (Some new_owner)
  end.

Definition get_name_owner_cb (name_owner_arg : option string)
    (error : option GError) : M unit :=
  if negb (bool_decide (is_Some name_owner_arg))
     && g_error_matches error G_IO_ERROR G_IO_ERROR_CANCELLED
  then mret tt
  else name_owner_changed name_owner_arg.

Inductive ConnectionState := CONNECTION_FAIL | CONNECTION_SUCCESS | CONNECTION_WAIT.

(** [main_connection] is what [NM_MAIN_DBUS_CONNECTION_GET] evaluates to. *)
Definition ensure_all_connected (main_connection : option GDBusConnection)
  : M ConnectionState :=
  p ← get_priv;
  match dbus_connection p with
  | None => modify (set_dbus_connection main_connection)
  | Some _ => mret tt
  end;;
  p ← get_priv;
  match dbus_connection p with
  | None => mret CONNECTION_FAIL
  | Some _ =>
      match name_owner p with
      | Some _ => mret CONNECTION_SUCCESS
      | None =>
          match name_owner_changed_id p with
          | 0 =>
              id ← nm_dbus_connection_signal_subscribe_name_owner_changed
                     (dbus_connection p);
              modify (set_name_owner_changed_id id)
          | S _ => mret tt
          end;;
          match name_owner_cancellable p with
          | None =>
              nm_clear_g_cancellable name_owner_cancellable_ptr;;
              c ← g_cancellable_new;
              modify (set_name_owner_cancellable (Some c));;
              nm_dbus_connection_call_get_name_owner (dbus_connection p) c
          | Some _ => mret tt
          end;;
          mret CONNECTION_WAIT
      end
  end.

Definition stop : M unit :=
  nm_clear_g_cancellable update_cancellable_ptr;;
  nm_clear_g_cancellable name_owner_cancellable_ptr;;
  p ← get_priv;
  nm_clear_g_dbus_connection_signal (dbus_connection p).

(** [dispose] frees [name_owner] and [latest_update_args] without resetting the
    fields; the memory they point to is not modelled.  [g_clear_object] resets
    [dbus_connection]. *)
Definition dispose : M unit :=
  _LOGT "disposing of Dnsconfd plugin";;
  stop;;
  modify (set_dbus_connection None).

Section Plugin.
Context {ext : Collaborators}.

(** [logging_level] is what [nm_logging_get_level (LOGD_DNS)] returns.  The
    result is the return value together with the [GError] stored through
    [error]. *)
Definition update (global_config : option NMGlobalDnsConfig)
    (ip_data_lst : list NMDnsConfigIPData)
    (main_connection : option GDBusConnection) (logging_level : NMLogLevel)
  : M (bool * option GError) :=
  match global_config with
  | Some _ => _LOGT "parsing global configuration"
  | None => mret tt
  end;;
  _LOGT "parsing configuration of interfaces";;
  let args := build_update_args global_config ip_data_lst in
  match logging_level with
  | LOGL_TRACE => emit (ELogArgs LOGL_TRACE "arguments variant is composed like: " args)
  | _ => mret tt
  end;;
  modify (set_latest_update_args None);;
  modify (set_latest_update_args (Some args));;
  all_connected ← ensure_all_connected main_connection;
  match all_connected with
  | CONNECTION_FAIL =>
      mret (false,
            Some {| domain := NM_UTILS_ERROR; code := NM_UTILS_ERROR_UNKNOWN;
                    message := "no D-Bus connection available to talk to dnsconfd" |})
  | CONNECTION_WAIT => mret (true, None)
  | CONNECTION_SUCCESS =>
      send_dnsconfd_update;;
      mret (true, None)
  end.

End Plugin.

(** ** The main loop

    The plugin runs on a single-threaded main loop, which delivers the calls of
    the framework and the completions of what the plugin started.  A [World]
    is the private data together with what GLib and the bus hold for the
    plugin: the cancellables already cancelled, the [Update] calls and the
    owner lookups not yet completed (each known by its cancellable), and the
    signal subscriptions in place. *)
Record World := {
  plugin : NMDnsDnsconfdPrivate;
  last_id : nat;
  cancelled : gset GCancellable;
  calls : list GCancellable;
  lookups : list GCancellable;
  subscriptions : list nat
}.

Definition world_init : World :=
  {| plugin := priv_init; last_id := 0; cancelled := ∅;
     calls := []; lookups := []; subscriptions := [] |}.

Inductive Event :=
| EvUpdate (global_config : option NMGlobalDnsConfig)
           (ip_data_lst : list NMDnsConfigIPData)
           (main_connection : option GDBusConnection) (logging_level : NMLogLevel)
| EvStop
| EvUpdateDone (c : GCancellable) (response : option (bool * string))
               (error : option GError)
| EvGetNameOwnerDone (c : GCancellable) (name_owner_arg : option string)
                     (error : option GError)
| EvNameOwnerChanged (id : nat) (parameters : SignalParameters).

(** [g_dbus_connection_call_finish] returns a reply or sets an error, never
    both and never neither. *)
Definition call_result_wf (response : option (bool * string)) (error : option GError)
  : bool :=
  match response, error with
  | Some _, None | None, Some _ => true
  | _, _ => false
  end.

(** What the main loop can deliver in a world.  A completion belongs to a call
    that is outstanding; it reports the cancellation exactly when the
    cancellable of the call was cancelled.  A signal belongs to a subscription
    in place. *)
Definition enabledb (w : World) (e : Event) : bool :=
  match e with
  | EvUpdate _ _ _ _ => true
  | EvStop => true
  | EvUpdateDone c response error =>
      bool_decide (c ∈ calls w)
      && call_result_wf response error
      && bool_decide (nm_utils_error_is_cancelled error
                      = bool_decide (c ∈ cancelled w))
  | EvGetNameOwnerDone c name_owner_arg error =>
      bool_decide (c ∈ lookups w)
      && (negb (bool_decide (c ∈ cancelled w))
          || (negb (bool_decide (is_Some name_owner_arg))
              && g_error_matches error G_IO_ERROR G_IO_ERROR_CANCELLED))
  | EvNameOwnerChanged id _ => bool_decide (id ∈ subscriptions w)
  end.

Definition enabled (w : World) (e : Event) : Prop := enabledb w e = true.

(** The bookkeeping of GLib and of the bus for one effect. *)
Definition absorb (w : World) (e : Effect) : World :=
  match e with
  | ECancel c =>
      {| plugin := plugin w; last_id := last_id w;
         cancelled := {[ c ]} ∪ cancelled w;
         calls := calls w; lookups := lookups w; subscriptions := subscriptions w |}
  | EDBusCall _ _ _ c =>
      {| plugin := plugin w; last_id := last_id w; cancelled := cancelled w;
         calls := calls w ++ [c]; lookups := lookups w;
         subscriptions := subscriptions w |}
  | EGetNameOwner _ c =>
      {| plugin := plugin w; last_id := last_id w; cancelled := cancelled w;
         calls := calls w; lookups := lookups w ++ [c];
         subscriptions := subscriptions w |}
  | ESubscribe _ id =>
      {| plugin := plugin w; last_id := last_id w; cancelled := cancelled w;
         calls := calls w; lookups := lookups w;
         subscriptions := subscriptions w ++ [id] |}
  | EUnsubscribe _ id =>
      {| plugin := plugin w; last_id := last_id w; cancelled := cancelled w;
         calls := calls w; lookups := lookups w;
         subscriptions := filter (fun i => i ≠ id) (subscriptions w) |}
  | ELog _ _ | ELogArgs _ _ _ | EPendingMaybeChanged _ => w
  end.

(** A delivered completion is no longer outstanding. *)
Definition complete (w : World) (e : Event) : World :=
  match e with
  | EvUpdateDone c _ _ =>
      {| plugin := plugin w; last_id := last_id w; cancelled := cancelled w;
         calls := filter (fun i => i ≠ c) (calls w); lookups := lookups w;
         subscriptions := subscriptions w |}
  | EvGetNameOwnerDone c _ _ =>
      {| plugin := plugin w; last_id := last_id w; cancelled := cancelled w;
         calls := calls w; lookups := filter (fun i => i ≠ c) (lookups w);
         subscriptions := subscriptions w |}
  | _ => w
  end.

Section MainLoop.
Context {ext : Collaborators}.

Definition handler (e : Event) : M unit :=
  match e with
  | EvUpdate g ip_data_lst main_connection logging_level =>
      update g ip_data_lst main_connection logging_level;; mret tt
  | EvStop => stop
  | EvUpdateDone _ response error => dnsconfd_update_done response error
  | EvGetNameOwnerDone _ name_owner_arg error => get_name_owner_cb name_owner_arg error
  | EvNameOwnerChanged _ parameters => name_owner_changed_cb parameters
  end.

(** The callback of an event, run on the private data of the world. *)
Definition run_event (w : World) (e : Event) : Res unit * St :=
  handler e {| priv := plugin w; fresh := last_id w; trace := [] |}.

(** The effects the plugin emits while it handles the event. *)
Definition emitted (w : World) (e : Event) : list Effect :=
  trace (run_event w e).2.

(** One turn of the main loop.  A callback that faults leaves the private data
    as they were at the fault. *)
Definition step (w : World) (e : Event) : World :=
  let s := (run_event w e).2 in
  let w := complete w e in
  fold_left absorb (trace s)
    {| plugin := priv s; last_id := fresh s; cancelled := cancelled w;
       calls := calls w; lookups := lookups w; subscriptions := subscriptions w |}.

Inductive reachable : World -> Prop :=
| reachable_init : reachable world_init
| reachable_step w e : reachable w -> enabled w e -> reachable (step w e).

End MainLoop.

(** ** Sample collaborators

    A parser that knows two IPv4 servers and one TLS server and refuses every
    other string, for evaluating the functions above on concrete inputs. *)
Definition sample_uri_parse (af : AddrFamily) (s : string) : option NMDnsServer :=
  if String.eqb s "9.9.9.9" then
    Some {| scheme := NM_DNS_URI_SCHEME_NONE; dns_addr_family := AF_INET;
            addr := [Byte.x09; Byte.x09; Byte.x09; Byte.x09]; servername := None |}
  else if String.eqb s "1.2.3.4" then
    Some {| scheme := NM_DNS_URI_SCHEME_NONE; dns_addr_family := AF_INET;
            addr := [Byte.x01; Byte.x02; Byte.x03; Byte.x04]; servername := None |}
  else if String.eqb s "dns+tls://1.1.1.1#one.one" then
    Some {| scheme := NM_DNS_URI_SCHEME_TLS; dns_addr_family := AF_INET;
            addr := [Byte.x01; Byte.x01; Byte.x01; Byte.x01];
            servername := Some "one.one" |}
  else None.

Definition sample_inet_ntop (af : AddrFamily) (a : list Byte.byte) : string :=
  match a with
  | [Byte.x0a; Byte.x00; Byte.x00; Byte.x00] => "10.0.0.0"
  | _ => "?"
  end.

Definition sample : Collaborators :=
  {| nm_dns_uri_parse := sample_uri_parse;
     inet_ntop := sample_inet_ntop;
     NM_DNS_ROUTES_FWMARK_TABLE_PRIO := 20053 |}.

Definition ip_data_empty : NMDnsConfigIPData :=
  {| addr_family := AF_INET; nameservers := []; searches := []; domains := [];
     best_default_route := false; routes := []; ifname := None;
     connection_id := None; connection_uuid := None; dbus_path := None |}.

(** The interface of the scenario of the specification: one IPv4 nameserver,
    no domains, the default route and the route 10.0.0.0/24. *)
Definition ip_data_scenario : NMDnsConfigIPData :=
  {| addr_family := AF_INET; nameservers := ["9.9.9.9"]; searches := [];
     domains := []; best_default_route := true;
     routes := [ {| network := [Byte.x00; Byte.x00; Byte.x00; Byte.x00];
                    plen := 0; table_coerced := 254 |};
                 {| network := [Byte.x0a; Byte.x00; Byte.x00; Byte.x00];
                    plen := 24; table_coerced := 254 |} ];
     ifname := Some "eth0"; connection_id := Some "Wired";
     connection_uuid := Some "uuid-1";
     dbus_path := Some "/org/freedesktop/NetworkManager/ActiveConnection/1" |}.

Definition global_scenario : NMGlobalDnsConfig :=
  {| global_searches := None; certification_authority := Some "/etc/ca.pem";
     global_resolve_mode := 0;
     global_domains :=
       [ {| domain_name := "internal.example"; domain_servers := Some ["1.2.3.4"] |} ] |}.

(** ** The message, as the specification describes it

    The definitions of this section follow the words of the specification of
    the message builder; the theorems below compare them with the functions
    embedded from the source. *)
Section BuilderSpec.
Context {ext : Collaborators}.

Definition opt_entry {A} (key : string) (mk : A -> GVariant) (x : option A) : Dict :=
  match x with
  | Some a => [(key, mk a)]
  | None => []
  end.

(** The part of a WireRecord that every record has: the validated address with
    its scheme and name, the routing-domain list, the search-domain list and
    the CA. *)
Definition wire_base (s : NMDnsServer) (routing_domains search_domains : option (list string))
    (ca : option string) : Dict :=
  [("address", VBytes (firstn (nm_utils_addr_family_to_size (dns_addr_family s)) (addr s)))]
  ++ match scheme s with
     | NM_DNS_URI_SCHEME_TLS => [("protocol", VString "dns+tls")]
     | _ => []
     end
  ++ opt_entry "name" VString (servername s)
  ++ opt_entry "routing_domains" VStrv routing_domains
  ++ opt_entry "search_domains" VStrv search_domains
  ++ opt_entry "ca" VString ca.

(** The part only per-interface records have: the metadata of the interface. *)
Definition wire_interface_info (ip_data : NMDnsConfigIPData) : Dict :=
  opt_entry "connection-id" VString (connection_id ip_data)
  ++ opt_entry "connection-uuid" VString (connection_uuid ip_data)
  ++ opt_entry "connection-object" VString (dbus_path ip_data)
  ++ opt_entry "interface" VString (ifname ip_data)
  ++ opt_entry "networks" VStrv (get_networks ip_data).

(** The nameserver strings of a list that validate, as parsed, in order. *)
Definition validated (af : AddrFamily) (l : list string) : list NMDnsServer :=
  omap (nm_dns_uri_parse af) l.

(** Whether a nameserver string validates. *)
Definition validates (af : AddrFamily) (s : string) : bool :=
  match nm_dns_uri_parse af s with
  | Some _ => true
  | None => false
  end.

(** Step 3 of the algorithm: one WireRecord for every nameserver of the
    interface that validates. *)
Definition interface_records (explicit_default : bool) (ca : option string)
    (ip_data : NMDnsConfigIPData) : list Dict :=
  map (fun s =>
         wire_base s (gather_interface_domains ip_data explicit_default).1
                     (gather_interface_domains ip_data explicit_default).2 ca
         ++ wire_interface_info ip_data)
      (validated (addr_family ip_data) (nameservers ip_data)).

(** The sentinel name [*] maps to the routing-domain [.]. *)
Definition routing_domain_of_name (name : string) : string :=
  if String.eqb name "*" then "." else name.

(** Step 1 of the algorithm for one override domain: one WireRecord for every
    server of the domain that validates, with the search suffixes and the CA
    of the policy. *)
Definition global_domain_records (g : NMGlobalDnsConfig) (d : NMGlobalDnsDomain)
  : list Dict :=
  match domain_servers d with
  | None => []
  | Some l =>
      map (fun s =>
             wire_base s (Some [routing_domain_of_name (domain_name d)])
                       (global_searches g) (certification_authority g))
          (validated AF_UNSPEC l)
  end.

Definition global_records (global_config : option NMGlobalDnsConfig) : list Dict :=
  match global_config with
  | Some g => flat_map (global_domain_records g) (global_domains g)
  | None => []
  end.

(** The number of servers the override domains of a policy list. *)
Definition global_server_count (g : NMGlobalDnsConfig) : nat :=
  list_sum (map (fun d => length (default [] (domain_servers d))) (global_domains g)).

(** Claim C8 read literally: one WireRecord for every listed server. *)
Definition one_record_per_global_server (g : NMGlobalDnsConfig) : Prop :=
  length (servers (build_update_args (Some g) [])) = global_server_count g.

End BuilderSpec.

(** The entries of a domain list without their routing-only marker. *)
Definition parsed_domains (l : list string) : list string :=
  map (fun d => (nm_utils_parse_dns_domain d).1) l.

(** The entries of a domain list that are not routing-only, without marker:
    the search-domain list. *)
Definition search_entries (l : list string) : list string :=
  parsed_domains (List.filter (fun d => negb (nm_utils_parse_dns_domain d).2) l).

(** The list [gather_interface_domains] reads: the searches, or the plain
    domains when there is no search. *)
Definition domains_in_use (ip_data : NMDnsConfigIPData) : list string :=
  match searches ip_data with
  | [] => domains ip_data
  | _ => searches ip_data
  end.

(** Some search list holds the routing-only entry [~.]. *)
Definition has_routing_only_dot (ip_data_lst : list NMDnsConfigIPData) : Prop :=
  exists ip_data, ip_data ∈ ip_data_lst /\ "~." ∈ searches ip_data.

(** Some search list holds [.], with or without the routing-only marker. *)
Definition has_dot_entry (ip_data_lst : list NMDnsConfigIPData) : Prop :=
  exists ip_data d,
    ip_data ∈ ip_data_lst /\ d ∈ searches ip_data /\ (d = "." \/ d = "~.").

(** The routing-domain list built for an interface of a snapshot. *)
Definition routing_domains_of (ip_data_lst : list NMDnsConfigIPData)
    (ip_data : NMDnsConfigIPData) : option (list string) :=
  (gather_interface_domains ip_data (is_default_interface_explicit ip_data_lst)).1.

(** Claim C5 read literally, with [has_routing_only_dot] deciding whether [.]
    is synthesized. *)
Definition synthesized_unless_routing_only_dot
    (ip_data_lst : list NMDnsConfigIPData) : Prop :=
  (has_routing_only_dot ip_data_lst ->
   forall ip_data, ip_data ∈ ip_data_lst ->
     routing_domains_of ip_data_lst ip_data
     = strv_or_null (parsed_domains (domains_in_use ip_data)))
  /\ (~ has_routing_only_dot ip_data_lst ->
      forall ip_data, ip_data ∈ ip_data_lst -> best_default_route ip_data = true ->
        routing_domains_of ip_data_lst ip_data
        = Some (parsed_domains (domains_in_use ip_data) ++ ["."])).

(** An interface that searches the plain [.] and holds no default route. *)
Definition ip_data_dot_search : NMDnsConfigIPData :=
  {| addr_family := AF_INET; nameservers := ["1.2.3.4"]; searches := ["."];
     domains := []; best_default_route := false; routes := []; ifname := None;
     connection_id := None; connection_uuid := None; dbus_path := None |}.

(** An interface without domains that holds the default route. *)
Definition ip_data_default_route : NMDnsConfigIPData :=
  {| addr_family := AF_INET; nameservers := ["9.9.9.9"]; searches := [];
     domains := []; best_default_route := true; routes := []; ifname := None;
     connection_id := None; connection_uuid := None; dbus_path := None |}.

Definition ip_data_plain_dot : list NMDnsConfigIPData :=
  [ip_data_dot_search; ip_data_default_route].

(** A policy whose only override domain lists a string that is no address. *)
Definition global_bad_server : NMGlobalDnsConfig :=
  {| global_searches := None; certification_authority := None;
     global_resolve_mode := 2;
     global_domains :=
       [ {| domain_name := "*"; domain_servers := Some ["not-an-address"] |} ] |}.

(** ** Shapes of the effects a callback emits *)

(** What [nm_clear_g_cancellable] emits for the field it is given. *)
Definition opt_cancel (o : option GCancellable) : list Effect :=
  match o with
  | Some c => [ECancel c]
  | None => []
  end.

(** What [nm_clear_g_dbus_connection_signal] emits for the id it is given. *)
Definition opt_unsubscribe (conn : option GDBusConnection) (id : nat) : list Effect :=
  match id with
  | 0 => []
  | S _ => [EUnsubscribe conn id]
  end.

(** What [update] logs before it touches the private data. *)
Definition update_logs (global_config : option NMGlobalDnsConfig)
    (logging_level : NMLogLevel) (args : UpdateArgs) : list Effect :=
  match global_config with
  | Some _ => [ELog LOGL_TRACE "parsing global configuration"]
  | None => []
  end
  ++ [ELog LOGL_TRACE "parsing configuration of interfaces"]
  ++ match logging_level with
     | LOGL_TRACE => [ELogArgs LOGL_TRACE "arguments variant is composed like: " args]
     | _ => []
     end.

(** The [Update] calls among the effects of a callback. *)
Definition is_call (e : Effect) : bool :=
  match e with
  | EDBusCall _ _ _ _ => true
  | _ => false
  end.

Definition calls_in (t : list Effect) : list Effect := List.filter is_call t.

(** The effects that reach neither GLib nor the bus: logs and the notification
    of the framework. *)
Definition is_local (e : Effect) : bool :=
  match e with
  | ELog _ _ | ELogArgs _ _ _ | EPendingMaybeChanged _ => true
  | _ => false
  end.

(** The error [update] stores when there is no connection. *)
Definition no_connection_error : GError :=
  {| domain := NM_UTILS_ERROR; code := NM_UTILS_ERROR_UNKNOWN;
     message := "no D-Bus connection available to talk to dnsconfd" |}.

(** The connection [ensure_all_connected] ends up with. *)
Definition connection_after (conn main_connection : option GDBusConnection)
  : option GDBusConnection :=
  match conn with
  | None => main_connection
  | Some _ => conn
  end.

(** The owner an event reports to [name_owner_changed], when it reports one
    that is not empty. *)
Definition reports_owner (e : Event) : option string :=
  match e with
  | EvGetNameOwnerDone _ name_owner_arg _ => nm_str_not_empty name_owner_arg
  | EvNameOwnerChanged _ (ParametersSSS _ _ new_owner) =>
      nm_str_not_empty (Some new_owner)
  | _ => None
  end.

Definition is_update (e : Event) : bool :=
  match e with
  | EvUpdate _ _ _ _ => true
  | _ => false
  end.

(** ** What holds in every world the main loop reaches *)
Record Inv (w : World) : Prop := {
  inv_calls_bound : forall c, c ∈ calls w -> c <= last_id w;
  inv_calls_nodup : NoDup (calls w);
  inv_calls_live : forall c, c ∈ calls w -> c ∉ cancelled w ->
                   update_cancellable (plugin w) = Some c;
  inv_lookups_bound : forall c, c ∈ lookups w -> c <= last_id w;
  inv_lookups_nodup : NoDup (lookups w);
  inv_lookups_live : forall c, c ∈ lookups w -> c ∉ cancelled w ->
                     name_owner_cancellable (plugin w) = Some c;
  inv_subscriptions : subscriptions w
                      = match name_owner_changed_id (plugin w) with
                        | 0 => []
                        | S _ as i => [i]
                        end;
  inv_latest : latest_update_args (plugin w) = None ->
               subscriptions w = [] /\ lookups w = [];
  inv_owner : name_owner (plugin w) <> Some "";
  inv_cancelled_bound : forall c, c ∈ cancelled w -> c <= last_id w;
  inv_update_cancellable_bound :
    forall c, update_cancellable (plugin w) = Some c -> c <= last_id w;
  inv_name_owner_cancellable_bound :
    forall c, name_owner_cancellable (plugin w) = Some c -> c <= last_id w
}.

(** ** Sample states and worlds *)

Definition timed_out : GError :=
  {| domain := G_IO_ERROR; code := G_IO_ERROR_TIMED_OUT;
     message := "Timeout was reached" |}.

Definition cancelled_error : GError :=
  {| domain := G_IO_ERROR; code := G_IO_ERROR_CANCELLED;
     message := "Operation was cancelled" |}.

(** The private data while a call to the owner [:1.5] is outstanding. *)
Definition priv_call_outstanding : NMDnsDnsconfdPrivate :=
  mkPriv (Some 7) (Some 3) (Some ":1.5") 1 (Some 2)
         (Some {| servers := []; resolve_mode := 0 |}).

Definition st_call_outstanding : St := mkSt priv_call_outstanding 3 [].

(** The world after a first [update] that found the bus but no owner yet. *)
Definition world_waiting : World :=
  @step sample world_init (EvUpdate None [ip_data_scenario] (Some 7) LOGL_INFO).

(** The world after the lookup then reported the owner [:1.5]. *)
Definition world_owner_known : World :=
  @step sample world_waiting (EvGetNameOwnerDone 2 (Some ":1.5") None).

(** Claim C2 read literally: [stop] ends without transport handle and without
    cached owner. *)
Definition stop_disconnects (s : St) : Prop :=
  dbus_connection (priv (stop s).2) = None /\ name_owner (priv (stop s).2) = None.

(** The effects by which the plugin starts to look for the owner. *)
Definition is_discovery (e : Effect) : bool :=
  match e with
  | ESubscribe _ _ | EGetNameOwner _ _ => true
  | _ => false
  end.

(** The [Update] calls that are outstanding and not cancelled. *)
Definition live_calls (w : World) : list GCancellable :=
  filter (fun c => c ∉ cancelled w) (calls w).

(** What is true of an [Update] call the plugin issues while it handles the
    event [e] in the world [w]: the call goes over the connection, to the
    owner and with the message the plugin holds afterwards, both present; its
    cancellable is fresh and becomes [update_cancellable]; every call that was
    outstanding before is cancelled; it is the only call of the event, and
    afterwards the only call that is outstanding and not cancelled. *)
Definition call_facts {ext : Collaborators} (w : World) (e : Event)
    (conn : option GDBusConnection) (bus_name : option string)
    (args : option UpdateArgs) (c : GCancellable) : Prop :=
  let w' := step w e in
  conn = dbus_connection (plugin w')
  /\ bus_name = name_owner (plugin w')
  /\ (exists o, bus_name = Some o /\ o <> "")
  /\ args = latest_update_args (plugin w')
  /\ is_Some args
  /\ update_cancellable (plugin w') = Some c
  /\ c = S (last_id w)
  /\ (forall c', c' ∈ calls w -> c' ∈ cancelled w')
  /\ calls_in (emitted w e) = [EDBusCall conn bus_name args c]
  /\ live_calls w' = [c].

(** ** Definitions for the further properties *)

(** The routes [get_networks] lists: neither default routes nor routes of the
    table [NM_DNS_ROUTES_FWMARK_TABLE_PRIO]. *)
Definition route_listed {ext : Collaborators} (r : NMPlatformIPRoute) : bool :=
  negb (NM_PLATFORM_IP_ROUTE_IS_DEFAULT r
        || Z.eqb (table_coerced r) NM_DNS_ROUTES_FWMARK_TABLE_PRIO).

(** The keys a record can carry, in the order in which the builder adds
    them. *)
Definition base_keys : list string :=
  ["address"; "protocol"; "name"; "routing_domains"; "search_domains"; "ca"].

Definition interface_keys : list string :=
  ["connection-id"; "connection-uuid"; "connection-object"; "interface"; "networks"].



(** The record of the interface of the scenario. *)
Definition interface_records_scenario : Dict :=
  [ ("address", VBytes [Byte.x09; Byte.x09; Byte.x09; Byte.x09]);
    ("routing_domains", VStrv ["."]);
    ("connection-id", VString "Wired");
    ("connection-uuid", VString "uuid-1");
    ("connection-object", VString "/org/freedesktop/NetworkManager/ActiveConnection/1");
    ("interface", VString "eth0");
    ("networks", VStrv ["10.0.0.0/24"]) ].

(** The record of the policy of the scenario. *)
Definition global_record_scenario : Dict :=
  [ ("address", VBytes [Byte.x01; Byte.x02; Byte.x03; Byte.x04]);
    ("routing_domains", VStrv ["internal.example"]);
    ("ca", VString "/etc/ca.pem") ].

(** The lookups that are outstanding and not cancelled. *)
Definition live_lookups (w : World) : list GCancellable :=
  filter (fun c => c ∉ cancelled w) (lookups w).

(** The connection an effect is issued on, for the effects that take one. *)
Definition effect_connection (e : Effect) : option (option GDBusConnection) :=
  match e with
  | EDBusCall conn _ _ _ | ESubscribe conn _ | EUnsubscribe conn _
  | EGetNameOwner conn _ => Some conn
  | _ => None
  end.

(** What holds in every world the main loop reaches, besides [Inv]: the
    cancellable the plugin holds for its call belongs to a call that is
    outstanding and not cancelled, and there is a connection whenever there is
    a subscription or a lookup. *)
Record Inv2 (w : World) : Prop := {
  inv_pending : forall c, update_cancellable (plugin w) = Some c ->
                c ∈ calls w /\ c ∉ cancelled w;
  inv_connection : subscriptions w <> [] \/ lookups w <> [] ->
                   is_Some (dbus_connection (plugin w))
}.

(** The main loop over a sequence of events. *)
Definition run_events {ext : Collaborators} (evs : list Event) (w : World) : World :=
  fold_left step evs w.

(** The message of the last [update] of a sequence of events. *)
Definition last_update_args {ext : Collaborators} (evs : list Event)
  : option UpdateArgs :=
  fold_left
    (fun acc e =>
       match e with
       | EvUpdate g ips _ _ => Some (build_update_args g ips)
       | _ => acc
       end) evs None.

(** Every event of the sequence can be delivered when its turn comes. *)
Fixpoint enabled_run {ext : Collaborators} (evs : list Event) (w : World) : bool :=
  match evs with
  | [] => true
  | e :: evs' => enabledb w e && enabled_run evs' (step w e)
  end.

(** The notifications of the framework among the effects of a callback. *)
Definition notifications (t : list Effect) : list bool :=
  omap (fun e => match e with EPendingMaybeChanged b => Some b | _ => None end) t.

(** The world in which the call to [:1.5] has been cancelled by [stop]. *)
Definition world_stopped : World := @step sample world_owner_known EvStop.

(** * Properties of the message builder *)

Section BuilderFacts.
Context {ext : Collaborators}.

Lemma add_if_set_open {A} b key (mk : A -> GVariant) x d :
  open_dict b = Some d ->
  add_if_set b key mk x
  = {| children := children b; open_dict := Some (d ++ opt_entry key mk x) |}.
Proof.
  intros Hb. destruct b as [ch od]; simpl in *. subst od.
  destruct x; simpl; unfold g_variant_builder_add; simpl.
  - reflexivity.
  - by rewrite app_nil_r.
Qed.

(** A successful [server_builder_append_base] leaves the dictionary of the
    server open; a failed one leaves the builder alone. *)
Lemma server_builder_append_base_spec b af s rd sd ca :
  server_builder_append_base b af s rd sd ca
  = match nm_dns_uri_parse af s with
    | Some srv => (true, {| children := children b;
                            open_dict := Some (wire_base srv rd sd ca) |})
    | None => (false, b)
    end.
Proof.
  unfold server_builder_append_base.
  destruct (nm_dns_uri_parse af s) as [srv|]; [|reflexivity].
  unfold wire_base, g_variant_builder_open.
  destruct (scheme srv), (servername srv), rd, sd, ca; reflexivity.
Qed.

Lemma server_builder_append_interface_info_spec ch d interface networks cid cuuid path :
  server_builder_append_interface_info
    {| children := ch; open_dict := Some d |} interface networks cid cuuid path
  = {| children := ch ++ [d ++ opt_entry "connection-id" VString cid
                            ++ opt_entry "connection-uuid" VString cuuid
                            ++ opt_entry "connection-object" VString path
                            ++ opt_entry "interface" VString interface
                            ++ opt_entry "networks" VStrv networks];
       open_dict := None |}.
Proof.
  unfold server_builder_append_interface_info.
  destruct cid, cuuid, path, interface, networks; simpl;
    unfold g_variant_builder_close; simpl;
    by rewrite <- ?app_assoc, ?app_nil_r.
Qed.

Lemma global_servers_fold rd se ca l b :
  open_dict b = None ->
  fold_left (global_server_step rd se ca) l b
  = {| children := children b
                   ++ map (fun s => wire_base s rd se ca) (validated AF_UNSPEC l);
       open_dict := None |}.
Proof.
  revert b. induction l as [|s l IH]; intros b Hb; simpl.
  - rewrite app_nil_r. destruct b; simpl in *; by subst.
  - unfold global_server_step at 2. rewrite server_builder_append_base_spec.
    unfold validated in *. simpl.
    destruct (nm_dns_uri_parse AF_UNSPEC s) as [srv|]; simpl.
    + rewrite IH by reflexivity. simpl. by rewrite <- app_assoc.
    + by rewrite IH.
Qed.

Lemma global_domains_fold g l b :
  open_dict b = None ->
  fold_left (global_domain_step (global_searches g) (certification_authority g)) l b
  = {| children := children b ++ flat_map (global_domain_records g) l;
       open_dict := None |}.
Proof.
  revert b. induction l as [|d l IH]; intros b Hb; simpl.
  - rewrite app_nil_r. destruct b; simpl in *; by subst.
  - unfold global_domain_step at 2, global_domain_records at 1.
    destruct (domain_servers d) as [srvs|].
    + rewrite global_servers_fold by done. rewrite IH by reflexivity.
      simpl. by rewrite <- app_assoc.
    + by rewrite IH.
Qed.

Lemma interface_servers_fold ip_data rd sd ca l b :
  open_dict b = None ->
  fold_left (interface_server_step ip_data rd sd (get_networks ip_data) ca) l b
  = {| children := children b
                   ++ map (fun s => wire_base s rd sd ca ++ wire_interface_info ip_data)
                          (validated (addr_family ip_data) l);
       open_dict := None |}.
Proof.
  revert b. induction l as [|s l IH]; intros b Hb; simpl.
  - rewrite app_nil_r. destruct b; simpl in *; by subst.
  - unfold interface_server_step at 2. rewrite server_builder_append_base_spec.
    unfold validated in *. simpl.
    destruct (nm_dns_uri_parse (addr_family ip_data) s) as [srv|]; simpl.
    + rewrite server_builder_append_interface_info_spec.
      rewrite IH by reflexivity. simpl.
      unfold wire_interface_info. by rewrite <- !app_assoc.
    + by rewrite IH.
Qed.

Lemma interfaces_fold explicit ca l b :
  open_dict b = None ->
  fold_left (interface_step explicit ca) l b
  = {| children := children b ++ flat_map (interface_records explicit ca) l;
       open_dict := None |}.
Proof.
  revert b. induction l as [|ip l IH]; intros b Hb; simpl.
  - rewrite app_nil_r. destruct b; simpl in *; by subst.
  - unfold interface_step at 2, interface_records at 1.
    destruct (nameservers ip) as [|n ns] eqn:Hns.
    + rewrite IH by done. by simpl.
    + destruct (gather_interface_domains ip explicit) as [rd sd] eqn:Hg.
      rewrite interface_servers_fold by done. rewrite IH by reflexivity.
      simpl. by rewrite <- app_assoc.
Qed.

(** The message of [update] is the one the specification describes: the
    global records, then the records of the interfaces in snapshot order. *)
Lemma build_update_args_servers global_config ip_data_lst :
  servers (build_update_args global_config ip_data_lst)
  = global_records global_config
    ++ flat_map (interface_records (is_default_interface_explicit ip_data_lst)
                                   (global_config ≫= certification_authority))
                ip_data_lst.
Proof.
  unfold build_update_args, parse_all_interface_config.
  destruct global_config as [g|]; simpl.
  - rewrite global_domains_fold by reflexivity.
    by rewrite interfaces_fold by reflexivity.
  - by rewrite interfaces_fold by reflexivity.
Qed.

Lemma build_update_args_resolve_mode global_config ip_data_lst :
  resolve_mode (build_update_args global_config ip_data_lst)
  = from_option global_resolve_mode 0%Z global_config.
Proof. unfold build_update_args. by destruct global_config. Qed.

Lemma validated_length af l :
  length (validated af l) = length (List.filter (validates af) l).
Proof.
  unfold validated, validates. induction l as [|s l IH]; simpl; [done|].
  destruct (nm_dns_uri_parse af s); simpl; by rewrite <- IH.
Qed.

Lemma validated_skip af before s after :
  nm_dns_uri_parse af s = None ->
  validated af (before ++ s :: after) = validated af before ++ validated af after.
Proof.
  intros Hs. unfold validated. rewrite omap_app. simpl. by rewrite Hs.
Qed.

Lemma wire_base_routing srv rd se ca :
  ("routing_domains", VStrv rd) ∈ wire_base srv (Some rd) se ca.
Proof. unfold wire_base. simpl. set_solver. Qed.

Lemma wire_base_searches srv rd se ca :
  ("search_domains", VStrv se) ∈ wire_base srv rd (Some se) ca.
Proof. unfold wire_base. simpl. set_solver. Qed.

Lemma wire_base_ca srv rd se ca :
  ("ca", VString ca) ∈ wire_base srv rd se (Some ca).
Proof. unfold wire_base. simpl. set_solver. Qed.

End BuilderFacts.

(** The two builder scenarios of the specification, evaluated. *)
Example scenario_interface :
  @build_update_args sample None [ip_data_scenario]
  = {| servers :=
         [ [ ("address", VBytes [Byte.x09; Byte.x09; Byte.x09; Byte.x09]);
             ("routing_domains", VStrv ["."]);
             ("connection-id", VString "Wired");
             ("connection-uuid", VString "uuid-1");
             ("connection-object",
              VString "/org/freedesktop/NetworkManager/ActiveConnection/1");
             ("interface", VString "eth0");
             ("networks", VStrv ["10.0.0.0/24"]) ] ];
       resolve_mode := 0 |}.
Proof. reflexivity. Qed.

Example scenario_global :
  @build_update_args sample (Some global_scenario) []
  = {| servers :=
         [ [ ("address", VBytes [Byte.x01; Byte.x02; Byte.x03; Byte.x04]);
             ("routing_domains", VStrv ["internal.example"]);
             ("ca", VString "/etc/ca.pem") ] ];
       resolve_mode := 0 |}.
Proof. reflexivity. Qed.

(** ** Domains *)

Lemma parse_dot_iff d :
  nm_streq (nm_utils_parse_dns_domain d).1 "." = true <-> d = "." \/ d = "~.".
Proof.
  unfold nm_streq. rewrite String.eqb_eq.
  destruct d as [|a d]; simpl; [naive_solver|].
  destruct a as [[] [] [] [] [] [] [] []]; simpl; naive_solver.
Qed.

Lemma is_default_interface_explicit_iff ips :
  is_default_interface_explicit ips = true <-> has_dot_entry ips.
Proof.
  unfold is_default_interface_explicit, has_dot_entry.
  rewrite existsb_exists. split.
  - intros (ip & Hip & Hex). apply existsb_exists in Hex as (d & Hd & Hdot).
    exists ip, d. rewrite <- !list_elem_of_In in *. by rewrite <- parse_dot_iff.
  - intros (ip & d & Hip & Hd & Hdot). exists ip. rewrite <- list_elem_of_In.
    split; [done|]. apply existsb_exists. exists d.
    rewrite <- list_elem_of_In. by rewrite parse_dot_iff.
Qed.

Lemma gather_fold l r s :
  fold_left gather_step l (r, s) = (r ++ parsed_domains l, s ++ search_entries l).
Proof.
  unfold search_entries, parsed_domains.
  revert r s. induction l as [|d l IH]; intros r s; simpl.
  - by rewrite !app_nil_r.
  - unfold gather_step at 2.
    destruct (nm_utils_parse_dns_domain d) as [cur []] eqn:Hd; simpl;
      rewrite IH; simpl; rewrite <- ?app_assoc, ?Hd; done.
Qed.

Lemma gather_interface_domains_spec ip e :
  gather_interface_domains ip e
  = (strv_or_null (parsed_domains (domains_in_use ip)
                   ++ if negb e && best_default_route ip then ["."] else []),
     strv_or_null (search_entries (domains_in_use ip))).
Proof.
  unfold gather_interface_domains. fold (domains_in_use ip).
  rewrite gather_fold. simpl.
  destruct (negb e && best_default_route ip); by rewrite ?app_nil_r.
Qed.

(** * Properties of the callbacks *)

Ltac unfold_monad :=
  unfold mbind, mret, M_bind, M_ret, bind, ret, get_priv, modify, emit, new_id, fault,
    g_cancellable_new, _LOGT, _LOGD, _LOGW,
    set_dbus_connection, set_update_cancellable, set_name_owner,
    set_name_owner_changed_id, set_name_owner_cancellable, set_latest_update_args in *.

Ltac step_bind := unfold mbind at 1, M_bind at 1, bind at 1.

Lemma nm_streq0_true a b : nm_streq0 a b = true <-> a = b.
Proof.
  destruct a as [x|], b as [y|]; simpl; try (split; congruence).
  rewrite String.eqb_eq. split; congruence.
Qed.

Lemma nm_str_not_empty_nonempty o : nm_str_not_empty o <> Some "".
Proof. by destruct o as [[|]|]. Qed.

Lemma nm_clear_update_spec conn uc no id nc la fr tr :
  nm_clear_g_cancellable update_cancellable_ptr (mkSt (mkPriv conn uc no id nc la) fr tr)
  = (Ok tt, mkSt (mkPriv conn None no id nc la) fr (tr ++ opt_cancel uc)).
Proof.
  unfold nm_clear_g_cancellable. unfold_monad. simpl.
  destruct uc; simpl; by rewrite ?app_nil_r.
Qed.

Lemma nm_clear_name_owner_spec conn uc no id nc la fr tr :
  nm_clear_g_cancellable name_owner_cancellable_ptr
    (mkSt (mkPriv conn uc no id nc la) fr tr)
  = (Ok tt, mkSt (mkPriv conn uc no id None la) fr (tr ++ opt_cancel nc)).
Proof.
  unfold nm_clear_g_cancellable. unfold_monad. simpl.
  destruct nc; simpl; by rewrite ?app_nil_r.
Qed.

Lemma nm_clear_signal_spec c conn uc no id nc la fr tr :
  nm_clear_g_dbus_connection_signal c (mkSt (mkPriv conn uc no id nc la) fr tr)
  = (Ok tt, mkSt (mkPriv conn uc no 0 nc la) fr (tr ++ opt_unsubscribe c id)).
Proof.
  unfold nm_clear_g_dbus_connection_signal. unfold_monad. simpl.
  destruct id; simpl; by rewrite ?app_nil_r.
Qed.

Lemma pending_spec conn uc no id nc la fr tr :
  _nm_dns_plugin_update_pending_maybe_changed (mkSt (mkPriv conn uc no id nc la) fr tr)
  = (Ok tt, mkSt (mkPriv conn uc no id nc la) fr
              (tr ++ [EPendingMaybeChanged (bool_decide (is_Some uc))])).
Proof.
  unfold _nm_dns_plugin_update_pending_maybe_changed, get_update_pending,
    _update_pending_detect. unfold_monad. simpl.
  destruct uc; reflexivity.
Qed.

Lemma send_spec conn uc no id nc la fr tr :
  send_dnsconfd_update (mkSt (mkPriv conn uc no id nc la) fr tr)
  = (Ok tt, mkSt (mkPriv conn (Some (S fr)) no id nc la) (S fr)
              (tr ++ opt_cancel uc
                  ++ [EDBusCall conn no la (S fr); EPendingMaybeChanged true])).
Proof.
  unfold send_dnsconfd_update.
  step_bind. rewrite nm_clear_update_spec.
  unfold_monad. simpl. rewrite pending_spec. simpl.
  by rewrite <- !app_assoc.
Qed.

Lemma stop_spec conn uc no id nc la fr tr :
  stop (mkSt (mkPriv conn uc no id nc la) fr tr)
  = (Ok tt, mkSt (mkPriv conn None no 0 None la) fr
              (tr ++ opt_cancel uc ++ opt_cancel nc ++ opt_unsubscribe conn id)).
Proof.
  unfold stop.
  step_bind. rewrite nm_clear_update_spec.
  step_bind. rewrite nm_clear_name_owner_spec.
  unfold_monad. simpl. rewrite nm_clear_signal_spec.
  by rewrite <- !app_assoc.
Qed.

Lemma dispose_spec conn uc no id nc la fr tr :
  dispose (mkSt (mkPriv conn uc no id nc la) fr tr)
  = (Ok tt, mkSt (mkPriv None None no 0 None la) fr
              (tr ++ [ELog LOGL_TRACE "disposing of Dnsconfd plugin"]
                  ++ opt_cancel uc ++ opt_cancel nc ++ opt_unsubscribe conn id)).
Proof.
  unfold dispose. unfold_monad. simpl. rewrite stop_spec. simpl.
  by rewrite <- !app_assoc.
Qed.

Lemma name_owner_changed_spec o conn uc no id nc la fr tr :
  name_owner_changed o (mkSt (mkPriv conn uc no id nc la) fr tr)
  = if nm_streq0 no (nm_str_not_empty o)
    then (Ok tt, mkSt (mkPriv conn uc no id nc la) fr tr)
    else match nm_str_not_empty o with
         | None =>
             (Ok tt, mkSt (mkPriv conn uc None id nc la) fr
                       (tr ++ [ELog LOGL_DEBUG "D-Bus name for dnsconfd disappeared"]))
         | Some x =>
             (Ok tt, mkSt (mkPriv conn (Some (S fr)) (Some x) id nc la) (S fr)
                       (tr ++ [ELog LOGL_TRACE ("D-Bus name for dnsconfd got owner " +:+ x)]
                           ++ opt_cancel uc
                           ++ [EDBusCall conn (Some x) la (S fr);
                               EPendingMaybeChanged true; EPendingMaybeChanged true]))
         end.
Proof.
  unfold name_owner_changed. unfold_monad. simpl.
  destruct (nm_streq0 no (nm_str_not_empty o)); [reflexivity|].
  destruct (nm_str_not_empty o) as [x|]; simpl; [|reflexivity].
  rewrite send_spec. simpl. rewrite pending_spec. simpl.
  by rewrite <- !app_assoc.
Qed.

Lemma dnsconfd_update_done_spec response error conn uc no id nc la fr tr :
  dnsconfd_update_done response error (mkSt (mkPriv conn uc no id nc la) fr tr)
  = if nm_utils_error_is_cancelled error
    then (Ok tt, mkSt (mkPriv conn uc no id nc la) fr tr)
    else match response, error with
         | Some (all_ok, m), _ =>
             (Ok tt, mkSt (mkPriv conn None no id nc la) fr
                       (tr ++ opt_cancel uc
                           ++ [if all_ok then ELog LOGL_TRACE "dnsconfd update successful"
                               else ELog LOGL_WARN ("dnsconfd update failed: " +:+ m);
                               EPendingMaybeChanged false]))
         | None, Some e =>
             (Faulted FaultNullVariant,
              mkSt (mkPriv conn None no id nc la) fr
                (tr ++ opt_cancel uc
                    ++ [ELog LOGL_WARN ("dnsconfd update failed: " +:+ message e)]))
         | None, None =>
             (Faulted FaultNullError,
              mkSt (mkPriv conn None no id nc la) fr (tr ++ opt_cancel uc))
         end.
Proof.
  unfold dnsconfd_update_done.
  destruct (nm_utils_error_is_cancelled error); [reflexivity|].
  step_bind. rewrite nm_clear_update_spec.
  destruct response as [[all_ok m]|], error as [e|];
    unfold error_message, g_variant_get; unfold_monad; simpl;
    try (destruct all_ok; simpl; rewrite pending_spec; simpl);
    by rewrite <- ?app_assoc.
Qed.

(** A failed call that was not cancelled: the callback goes on to read the
    reply it does not have. *)
Lemma dnsconfd_update_done_null_response e s :
  nm_utils_error_is_cancelled (Some e) = false ->
  (dnsconfd_update_done None (Some e) s).1 = Faulted FaultNullVariant.
Proof.
  intros He. destruct s as [[conn uc no id nc la] fr tr].
  rewrite dnsconfd_update_done_spec. by rewrite He.
Qed.

Lemma ensure_all_connected_spec main_connection conn uc no id nc la fr tr :
  ensure_all_connected main_connection (mkSt (mkPriv conn uc no id nc la) fr tr)
  = match connection_after conn main_connection with
    | None => (Ok CONNECTION_FAIL, mkSt (mkPriv None uc no id nc la) fr tr)
    | Some c =>
        match no with
        | Some _ => (Ok CONNECTION_SUCCESS, mkSt (mkPriv (Some c) uc no id nc la) fr tr)
        | None =>
            match id, nc with
            | 0, None =>
                (Ok CONNECTION_WAIT,
                 mkSt (mkPriv (Some c) uc None (S fr) (Some (S (S fr))) la) (S (S fr))
                   (tr ++ [ESubscribe (Some c) (S fr); EGetNameOwner (Some c) (S (S fr))]))
            | 0, Some _ =>
                (Ok CONNECTION_WAIT,
                 mkSt (mkPriv (Some c) uc None (S fr) nc la) (S fr)
                   (tr ++ [ESubscribe (Some c) (S fr)]))
            | S _, None =>
                (Ok CONNECTION_WAIT,
                 mkSt (mkPriv (Some c) uc None id (Some (S fr)) la) (S fr)
                   (tr ++ [EGetNameOwner (Some c) (S fr)]))
            | S _, Some _ =>
                (Ok CONNECTION_WAIT, mkSt (mkPriv (Some c) uc None id nc la) fr tr)
            end
        end
    end.
Proof.
  unfold ensure_all_connected, connection_after,
    nm_dbus_connection_signal_subscribe_name_owner_changed,
    nm_dbus_connection_call_get_name_owner, nm_clear_g_cancellable.
  unfold_monad.
  destruct conn as [c|]; [|destruct main_connection as [c|]]; simpl;
    try reflexivity;
    destruct no, id, nc; simpl; by rewrite <- ?app_assoc.
Qed.

Section PluginFacts.
Context {ext : Collaborators}.

Lemma update_spec g ip_data_lst main_connection logging_level conn uc no id nc la fr tr :
  update g ip_data_lst main_connection logging_level
    (mkSt (mkPriv conn uc no id nc la) fr tr)
  = let args := build_update_args g ip_data_lst in
    match ensure_all_connected main_connection
            (mkSt (mkPriv conn uc no id nc (Some args)) fr
               (tr ++ update_logs g logging_level args)) with
    | (Ok CONNECTION_FAIL, s') => (Ok (false, Some no_connection_error), s')
    | (Ok CONNECTION_WAIT, s') => (Ok (true, None), s')
    | (Ok CONNECTION_SUCCESS, s') => (Ok (true, None), (send_dnsconfd_update s').2)
    | (Faulted f, s') => (Faulted f, s')
    end.
Proof.
  unfold update, update_logs.
  set (args := build_update_args g ip_data_lst).
  assert (Hlogs :
    forall k : M (bool * option GError),
      (match g with Some _ => _LOGT "parsing global configuration" | None => mret tt end;;
       _LOGT "parsing configuration of interfaces";;
       match logging_level with
       | LOGL_TRACE =>
           emit (ELogArgs LOGL_TRACE "arguments variant is composed like: " args)
       | _ => mret tt
       end;; k) (mkSt (mkPriv conn uc no id nc la) fr tr)
      = k (mkSt (mkPriv conn uc no id nc la) fr
             (tr ++ match g with
                    | Some _ => [ELog LOGL_TRACE "parsing global configuration"]
                    | None => []
                    end
                 ++ [ELog LOGL_TRACE "parsing configuration of interfaces"]
                 ++ match logging_level with
                    | LOGL_TRACE =>
                        [ELogArgs LOGL_TRACE "arguments variant is composed like: " args]
                    | _ => []
                    end))).
  { intros k. unfold_monad.
    destruct g, logging_level; simpl; by rewrite <- ?app_assoc, ?app_nil_r. }
  rewrite Hlogs. clear Hlogs.
  unfold_monad. simpl.
  rewrite ensure_all_connected_spec.
  destruct (connection_after conn main_connection) as [c|]; [|reflexivity].
  destruct no as [o|].
  - rewrite send_spec. reflexivity.
  - destruct id, nc; reflexivity.
Qed.

(** What [update] returns depends on the connection only. *)
Lemma update_result g ips main lvl s :
  (update g ips main lvl s).1
  = match connection_after (dbus_connection (priv s)) main with
    | None => Ok (false, Some no_connection_error)
    | Some _ => Ok (true, None)
    end.
Proof.
  destruct s as [[conn uc no id nc la] fr tr]. rewrite update_spec. simpl.
  rewrite ensure_all_connected_spec.
  destruct (connection_after conn main); [|done].
  destruct no; [done|]. by destruct id, nc.
Qed.

End PluginFacts.

(** * Properties of the main loop *)

Lemma absorb_local t w : forallb is_local t = true -> fold_left absorb t w = w.
Proof.
  revert w. induction t as [|e t IH]; intros w H; simpl in *; [done|].
  apply andb_prop in H as [He Ht]. rewrite <- (IH w Ht) at 2.
  f_equal. by destruct e.
Qed.

Lemma update_logs_local g lvl args : forallb is_local (update_logs g lvl args) = true.
Proof. by destruct g, lvl. Qed.

Lemma update_logs_no_call g lvl args e :
  e ∈ update_logs g lvl args -> is_local e = true.
Proof.
  intros He. pose proof (update_logs_local g lvl args) as Hl.
  rewrite forallb_forall in Hl. apply Hl. by apply list_elem_of_In.
Qed.

Ltac elem_rw :=
  rewrite ?elem_of_app, ?list_elem_of_filter, ?list_elem_of_singleton, ?elem_of_nil.

Ltac nodup_auto :=
  rewrite ?NoDup_app; repeat split;
  try apply NoDup_filter; try apply NoDup_singleton; try done;
  intros ?; elem_rw; naive_solver lia.

(** Proves [Inv] of a world written out field by field, from the fields of
    [Inv] of the world before. *)
Ltac inv_auto :=
  split; simpl in *;
  [ intros ?; elem_rw; naive_solver lia
  | nodup_auto
  | intros ?; elem_rw; set_solver
  | intros ?; elem_rw; naive_solver lia
  | nodup_auto
  | intros ?; elem_rw; set_solver
  | subst; cbn; repeat case_decide; naive_solver
  | subst; cbn; repeat case_decide; naive_solver
  | try done
  | intros ?; set_unfold; naive_solver lia
  | intros ?; naive_solver lia
  | intros ?; naive_solver lia ].

Lemma absorb_plugin t w :
  plugin (fold_left absorb t w) = plugin w
  /\ last_id (fold_left absorb t w) = last_id w.
Proof.
  revert w. induction t as [|e t IH]; intros w; simpl; [done|].
  destruct (IH (absorb w e)) as [-> ->]. by destruct e.
Qed.

Section MainLoopFacts.
Context {ext : Collaborators}.

Lemma run_event_update w g ip main lvl :
  (run_event w (EvUpdate g ip main lvl)).2
  = (update g ip main lvl (mkSt (plugin w) (last_id w) [])).2.
Proof.
  unfold run_event, handler. unfold mbind, M_bind, bind.
  by destruct (update g ip main lvl _) as [[] ?].
Qed.

Lemma Inv_init : Inv world_init.
Proof. split; simpl; try done; try apply NoDup_nil_2; set_solver. Qed.

Lemma Inv_step_stop w : Inv w -> Inv (step w EvStop).
Proof.
  destruct w as [[conn uc no id nc la] lid can cs ls ss].
  intros [H1 H2 H3 H4 H5 H6 H7 H8 H9 H10 H11 H12]. simpl in *.
  unfold step, run_event, handler. simpl. rewrite stop_spec. simpl.
  destruct uc as [u|], nc as [n|], id as [|i]; simpl.
  all: inv_auto.
Qed.

Lemma Inv_step_update_done w c response error :
  Inv w -> enabled w (EvUpdateDone c response error) ->
  Inv (step w (EvUpdateDone c response error)).
Proof.
  destruct w as [[conn uc no id nc la] lid can cs ls ss].
  intros [H1 H2 H3 H4 H5 H6 H7 H8 H9 H10 H11 H12] He. simpl in *.
  unfold enabled in He; simpl in He.
  apply andb_prop in He as [He Hc]. apply andb_prop in He as [Hin Hwf].
  apply bool_decide_eq_true in Hin, Hc.
  unfold step, run_event, handler. simpl. rewrite dnsconfd_update_done_spec.
  rewrite Hc. case_bool_decide as Hcan; simpl.
  - inv_auto.
  - pose proof (H3 _ Hin Hcan) as Huc. subst uc.
    destruct response as [[[] m]|], error as [e|]; try discriminate Hwf; simpl.
    all: inv_auto.
Qed.

Lemma Inv_name_owner_changed o conn uc no id nc la lid can cs ls ss :
  Inv {| plugin := mkPriv conn uc no id nc la; last_id := lid; cancelled := can;
         calls := cs; lookups := ls; subscriptions := ss |} ->
  la <> None ->
  let s := (name_owner_changed o (mkSt (mkPriv conn uc no id nc la) lid [])).2 in
  Inv (fold_left absorb (trace s)
         {| plugin := priv s; last_id := fresh s; cancelled := can;
            calls := cs; lookups := ls; subscriptions := ss |}).
Proof.
  intros [H1 H2 H3 H4 H5 H6 H7 H8 H9 H10 H11 H12] Hla. simpl in *.
  rewrite name_owner_changed_spec.
  destruct (nm_streq0 no (nm_str_not_empty o)); simpl; [by split|].
  pose proof (nm_str_not_empty_nonempty o) as Hne.
  destruct (nm_str_not_empty o) as [x|]; simpl.
  - destruct uc as [u|]; simpl; inv_auto.
  - inv_auto.
Qed.

Lemma Inv_step_get_name_owner_done w c o err :
  Inv w -> enabled w (EvGetNameOwnerDone c o err) ->
  Inv (step w (EvGetNameOwnerDone c o err)).
Proof.
  destruct w as [[conn uc no id nc la] lid can cs ls ss].
  intros HI He.
  unfold enabled in He; simpl in He.
  apply andb_prop in He as [Hin _]. apply bool_decide_eq_true in Hin.
  assert (Hla : la <> None).
  { intros ->. destruct HI as [_ _ _ _ _ _ _ H8 _ _ _ _]. simpl in H8.
    destruct (H8 eq_refl) as [_ ->]. set_solver. }
  unfold step, run_event, handler, get_name_owner_cb. simpl.
  destruct (negb (bool_decide (is_Some o))
            && g_error_matches err G_IO_ERROR G_IO_ERROR_CANCELLED).
  - simpl. destruct HI. inv_auto.
  - apply (Inv_name_owner_changed o); [|done].
    destruct HI. inv_auto.
Qed.

Lemma Inv_step_name_owner_changed w i parameters :
  Inv w -> enabled w (EvNameOwnerChanged i parameters) ->
  Inv (step w (EvNameOwnerChanged i parameters)).
Proof.
  destruct w as [[conn uc no id nc la] lid can cs ls ss].
  intros HI He.
  unfold enabled in He; simpl in He. apply bool_decide_eq_true in He.
  assert (Hla : la <> None).
  { intros ->. destruct HI as [_ _ _ _ _ _ _ H8 _ _ _ _]. simpl in H8.
    destruct (H8 eq_refl) as [-> _]. set_solver. }
  unfold step, run_event, handler, name_owner_changed_cb. simpl.
  destruct parameters as [n old new|]; [|done].
  by apply (Inv_name_owner_changed (Some new)).
Qed.

Lemma Inv_step_update w g ip main lvl :
  Inv w -> Inv (step w (EvUpdate g ip main lvl)).
Proof.
  destruct w as [[conn uc no id nc la] lid can cs ls ss].
  intros [H1 H2 H3 H4 H5 H6 H7 H8 H9 H10 H11 H12]. simpl in *.
  unfold step. rewrite run_event_update. simpl plugin. simpl last_id.
  rewrite update_spec. simpl.
  rewrite ensure_all_connected_spec.
  set (args := build_update_args g ip).
  pose proof (update_logs_local g lvl args) as Hl.
  destruct (connection_after conn main) as [c|]; simpl.
  2: { rewrite absorb_local by done. inv_auto. }
  destruct no as [o|].
  - rewrite send_spec. simpl.
    rewrite fold_left_app. rewrite (absorb_local (update_logs g lvl args)) by done.
    destruct uc as [u|]; simpl; inv_auto.
  - destruct id as [|i], nc as [n|]; simpl;
      rewrite ?fold_left_app; rewrite (absorb_local (update_logs g lvl args)) by done;
      simpl; inv_auto.
Qed.

Lemma Inv_step w e : Inv w -> enabled w e -> Inv (step w e).
Proof.
  intros HI He. destruct e.
  - by apply Inv_step_update.
  - by apply Inv_step_stop.
  - by apply Inv_step_update_done.
  - by apply Inv_step_get_name_owner_done.
  - by apply Inv_step_name_owner_changed.
Qed.

Lemma reachable_Inv w : reachable w -> Inv w.
Proof. induction 1; [apply Inv_init | by apply Inv_step]. Qed.

Lemma plugin_step w e : plugin (step w e) = priv (run_event w e).2.
Proof. unfold step. by rewrite (proj1 (absorb_plugin _ _)). Qed.

End MainLoopFacts.

(** ** The calls an event issues *)

Lemma calls_in_app t1 t2 : calls_in (t1 ++ t2) = calls_in t1 ++ calls_in t2.
Proof. apply List.filter_app. Qed.

Lemma calls_in_local t : forallb is_local t = true -> calls_in t = [].
Proof.
  induction t as [|e t IH]; simpl; [done|].
  intros [He Ht]%andb_prop. rewrite (IH Ht). by destruct e.
Qed.

Ltac call_inv H :=
  repeat (rewrite elem_of_app in H || rewrite elem_of_cons in H
          || rewrite elem_of_nil in H);
  destruct_or?; try done;
  try (apply update_logs_no_call in H; discriminate);
  simplify_eq.

Lemma live_after_send (can : gset GCancellable) cs c :
  (forall c', c' ∈ cs -> c' ∈ can) -> c ∉ can ->
  filter (fun x => x ∉ can) (cs ++ [c]) = [c].
Proof.
  intros Hall Hc. rewrite filter_app.
  assert (Hnil : filter (fun x => x ∉ can) cs = []).
  { apply elem_of_nil_inv. intros x [Hx Hin]%list_elem_of_filter. by apply Hx, Hall. }
  rewrite Hnil. cbn. by case_decide.
Qed.

Section CallFacts.
Context {ext : Collaborators}.

Lemma call_facts_name_owner_changed o conn uc no id nc la lid can cs ls ss :
  let w := {| plugin := mkPriv conn uc no id nc la; last_id := lid; cancelled := can;
         calls := cs; lookups := ls; subscriptions := ss |} in
  Inv w -> la <> None ->
  let s := (name_owner_changed o (mkSt (mkPriv conn uc no id nc la) lid [])).2 in
  forall conn' bn args c, EDBusCall conn' bn args c ∈ trace s ->
  let w' := fold_left absorb (trace s)
         {| plugin := priv s; last_id := fresh s; cancelled := can;
            calls := cs; lookups := ls; subscriptions := ss |} in
  conn' = dbus_connection (plugin w')
  /\ bn = name_owner (plugin w')
  /\ (exists o, bn = Some o /\ o <> "")
  /\ args = latest_update_args (plugin w')
  /\ is_Some args
  /\ update_cancellable (plugin w') = Some c
  /\ c = S lid
  /\ (forall c', c' ∈ cs -> c' ∈ cancelled w')
  /\ calls_in (trace s) = [EDBusCall conn' bn args c]
  /\ live_calls w' = [c].
Proof.
  intros w [H1 H2 H3 H4 H5 H6 H7 H8 H9 H10 H11 H12] Hla s. subst s. simpl in *.
  rewrite name_owner_changed_spec.
  destruct (nm_streq0 no (nm_str_not_empty o)); simpl; [set_solver|].
  pose proof (nm_str_not_empty_nonempty o) as Hne.
  destruct (nm_str_not_empty o) as [x|]; simpl; [|set_solver].
  intros conn' bn args c Hin.
  destruct uc as [u|]; simpl in *; call_inv Hin; simpl.
  all: repeat split; try done; try (by destruct la); try (exists x; split; congruence).
  all: try (apply live_after_send;
            [intros c' Hc'; destruct (decide (c' ∈ can)); set_solver
            |set_unfold; naive_solver lia]).
  all: intros c' Hc'; destruct (decide (c' ∈ can)); set_solver.
Qed.

Lemma emitted_call_facts w e :
  Inv w -> enabled w e ->
  forall conn bn args c, EDBusCall conn bn args c ∈ emitted w e ->
  call_facts w e conn bn args c.
Proof.
  intros HI He conn' bn args c.
  destruct w as [[conn uc no id nc la] lid can cs ls ss].
  unfold call_facts, emitted, step.
  destruct e as [g ip main lvl| |c0 resp err|c0 o err|i [n old new|]].
  - rewrite run_event_update. simpl plugin. simpl last_id.
    rewrite update_spec. simpl. rewrite ensure_all_connected_spec.
    set (a := build_update_args g ip).
    pose proof (update_logs_local g lvl a) as Hl.
    destruct HI as [H1 H2 H3 H4 H5 H6 H7 H8 H9 H10 H11 H12]. simpl in *.
    destruct (connection_after conn main) as [k|]; simpl.
    { destruct no as [o|].
      - rewrite send_spec. simpl. intros Hin.
        rewrite fold_left_app. rewrite (absorb_local (update_logs g lvl a)) by done.
        rewrite calls_in_app, (calls_in_local _ Hl).
        destruct uc as [u|]; simpl in *; call_inv Hin; simpl.
        all: repeat split; try done; try (exists o; split; congruence).
        all: try (apply live_after_send;
                  [intros c' Hc'; destruct (decide (c' ∈ can)); set_solver
                  |set_unfold; naive_solver lia]).
        all: intros c' Hc'; destruct (decide (c' ∈ can)); set_solver.
      - destruct id, nc; simpl; intros Hin; call_inv Hin. }
    intros Hin; call_inv Hin.
  - unfold run_event, handler. cbn [plugin last_id]. rewrite stop_spec. simpl.
    destruct uc, nc, id; simpl; intros Hin; call_inv Hin.
  - unfold run_event, handler. cbn [plugin last_id]. rewrite dnsconfd_update_done_spec.
    destruct (nm_utils_error_is_cancelled err); simpl; [intros Hin; call_inv Hin|].
    destruct resp as [[[] m]|], err, uc; simpl; intros Hin; call_inv Hin.
  - unfold enabled in He; simpl in He.
    apply andb_prop in He as [Hin _]. apply bool_decide_eq_true in Hin.
    assert (Hla : la <> None).
    { intros ->. destruct HI as [_ _ _ _ _ _ _ H8 _ _ _ _]. simpl in H8.
      destruct (H8 eq_refl) as [_ ->]. set_solver. }
    unfold run_event, handler, get_name_owner_cb. simpl.
    destruct (negb (bool_decide (is_Some o))
              && g_error_matches err G_IO_ERROR G_IO_ERROR_CANCELLED).
    + simpl. intros Hc; call_inv Hc.
    + intros Hc.
      assert (HI' : Inv {| plugin := mkPriv conn uc no id nc la; last_id := lid;
                           cancelled := can; calls := cs;
                           lookups := filter (fun i => i <> c0) ls;
                           subscriptions := ss |}).
      { destruct HI. inv_auto. }
      apply (call_facts_name_owner_changed o _ _ _ _ _ _ _ _ _ _ _ HI' Hla _ _ _ _ Hc).
  - unfold enabled in He; simpl in He. apply bool_decide_eq_true in He.
    assert (Hla : la <> None).
    { intros ->. destruct HI as [_ _ _ _ _ _ _ H8 _ _ _ _]. simpl in H8.
      destruct (H8 eq_refl) as [-> _]. set_solver. }
    unfold run_event, handler, name_owner_changed_cb. simpl. intros Hc.
    apply (call_facts_name_owner_changed (Some new) _ _ _ _ _ _ _ _ _ _ _ HI Hla _ _ _ _ Hc).
  - unfold run_event, handler, name_owner_changed_cb. simpl. intros Hc; call_inv Hc.
Qed.
End CallFacts.

(** ** One turn of the main loop *)

Section StepFacts.
Context {ext : Collaborators}.

Lemma update_latest g ips main lvl s :
  latest_update_args (priv (update g ips main lvl s).2) = Some (build_update_args g ips).
Proof.
  destruct s as [[conn uc no id nc la] fr tr]. rewrite update_spec. simpl.
  rewrite ensure_all_connected_spec.
  destruct (connection_after conn main); [|done].
  destruct no; [by rewrite send_spec|]. by destruct id, nc.
Qed.

Lemma update_without_owner g ips main lvl p fr :
  name_owner p = None ->
  calls_in (trace (update g ips main lvl (mkSt p fr [])).2) = []
  /\ name_owner (priv (update g ips main lvl (mkSt p fr [])).2) = None.
Proof.
  destruct p as [conn uc no id nc la]. simpl. intros ->.
  rewrite update_spec. simpl. rewrite ensure_all_connected_spec.
  pose proof (calls_in_local _ (update_logs_local g lvl (build_update_args g ips))) as Hl.
  destruct (connection_after conn main); simpl; [|done].
  destruct id, nc; simpl; by rewrite ?calls_in_app, Hl.
Qed.

Lemma latest_step_other w e :
  is_update e = false ->
  latest_update_args (plugin (step w e)) = latest_update_args (plugin w).
Proof.
  intros He. rewrite plugin_step.
  destruct w as [[conn uc no id nc la] lid can cs ls ss].
  unfold run_event, handler, get_name_owner_cb, name_owner_changed_cb.
  cbn [plugin last_id].
  destruct e as [| |c resp err|c o err|i [n old new|]]; try done.
  - by rewrite stop_spec.
  - rewrite dnsconfd_update_done_spec.
    destruct (nm_utils_error_is_cancelled err); [done|].
    by destruct resp as [[]|], err.
  - case_match; [done|]. rewrite name_owner_changed_spec. by repeat case_match.
  - rewrite name_owner_changed_spec. by repeat case_match.
Qed.

Lemma owner_reported w e o :
  name_owner (plugin w) = None -> reports_owner e = Some o ->
  calls_in (emitted w e)
  = [EDBusCall (dbus_connection (plugin w)) (Some o)
       (latest_update_args (plugin w)) (S (last_id w))]
  /\ name_owner (plugin (step w e)) = Some o.
Proof.
  intros Hno Ho. rewrite plugin_step. unfold emitted.
  destruct w as [[conn uc no id nc la] lid can cs ls ss]. simpl in Hno. subst no.
  assert (Hchg : forall x, nm_str_not_empty x = Some o ->
    calls_in (trace (name_owner_changed x (mkSt (mkPriv conn uc None id nc la) lid [])).2)
    = [EDBusCall conn (Some o) la (S lid)]
    /\ name_owner (priv (name_owner_changed x
                           (mkSt (mkPriv conn uc None id nc la) lid [])).2) = Some o).
  { intros x Hx. rewrite name_owner_changed_spec, Hx. simpl. by destruct uc. }
  unfold run_event, handler, get_name_owner_cb, name_owner_changed_cb.
  cbn [plugin last_id].
  destruct e as [| |c resp err|c x err|i [n old new|]]; try done; simpl in Ho.
  - destruct x as [x|]; [|done]. simpl. by apply Hchg.
  - by apply Hchg.
Qed.

Lemma discovery_only_in_update w e x :
  x ∈ emitted w e -> is_discovery x = true -> is_update e = true.
Proof.
  unfold emitted.
  destruct w as [[conn uc no id nc la] lid can cs ls ss].
  unfold run_event, handler, get_name_owner_cb, name_owner_changed_cb.
  cbn [plugin last_id].
  assert (Hchg : forall o,
    x ∈ trace (name_owner_changed o (mkSt (mkPriv conn uc no id nc la) lid [])).2 ->
    is_discovery x = true -> False).
  { intros o. rewrite name_owner_changed_spec.
    repeat case_match; simpl; try destruct uc; simpl; intros Hin; call_inv Hin; done. }
  destruct e as [| |c resp err|c o err|i [n old new|]]; try done.
  - rewrite stop_spec. destruct uc, nc, id; simpl; intros Hin; call_inv Hin; done.
  - rewrite dnsconfd_update_done_spec.
    repeat case_match; simpl; try destruct uc; simpl; intros Hin; call_inv Hin; done.
  - case_match; [intros Hin; call_inv Hin; done|]. intros ? ?. exfalso. eauto.
  - intros ? ?. exfalso. eauto.
  - intros Hin; call_inv Hin; done.
Qed.

Lemma cancelled_completion response error s :
  nm_utils_error_is_cancelled error = true ->
  dnsconfd_update_done response error s = (Ok tt, s).
Proof. intros H. unfold dnsconfd_update_done. by rewrite H. Qed.

Lemma live_calls_at_most_one w : Inv w -> length (live_calls w) <= 1.
Proof.
  intros HI. unfold live_calls.
  assert (Hnd : NoDup (filter (fun c => c ∉ cancelled w) (calls w))).
  { apply NoDup_filter, HI. }
  assert (Hall : forall c, c ∈ filter (fun c => c ∉ cancelled w) (calls w) ->
                           update_cancellable (plugin w) = Some c).
  { intros c [Hc Hin]%list_elem_of_filter. by apply HI. }
  destruct (filter _ _) as [|a [|b l]]; simpl; [lia|lia|].
  exfalso. pose proof (Hall a ltac:(set_solver)). pose proof (Hall b ltac:(set_solver)).
  apply NoDup_cons in Hnd as [Hnd _]. set_solver.
Qed.

End StepFacts.

(** Reachability of the sample worlds. *)
Ltac reach_waiting :=
  apply reachable_step; [apply reachable_init | reflexivity].

Ltac reach_owner_known :=
  apply reachable_step; [reach_waiting | vm_compute; reflexivity].

(** * The claims *)

(** C1 (the code departs from it): a call that timed out completes with no
    reply and an error that is no cancellation.  The callback logs the warning
    and then reads the reply all the same: it faults in [g_variant_get], before
    it notifies the framework. *)
Theorem C1_null_response_is_read :
  nm_utils_error_is_cancelled (Some timed_out) = false
  /\ dnsconfd_update_done None (Some timed_out) st_call_outstanding
     = (Faulted FaultNullVariant,
        mkSt (set_update_cancellable None priv_call_outstanding) 3
          [ECancel 3; ELog LOGL_WARN "dnsconfd update failed: Timeout was reached"]).
Proof. split; reflexivity. Qed.

(** C2 (as amended): in every state, [stop] returns, cancels the cancellable
    of the call and the one of the lookup that the plugin holds, removes the
    subscription whose id it holds, and resets the three fields.  The
    connection, the cached owner and the retained message are as before: [stop]
    does not release the connection, [dispose] does.  A second [stop] emits
    nothing and changes nothing.  In every world the main loop reaches, this
    leaves every outstanding call and every outstanding lookup cancelled and no
    subscription in place. *)
Theorem C2_stop_cancels {ext : Collaborators} (w : World) :
  let w' := step w EvStop in
  (run_event w EvStop).1 = Ok tt
  /\ update_cancellable (plugin w') = None
  /\ name_owner_cancellable (plugin w') = None
  /\ name_owner_changed_id (plugin w') = 0
  /\ (forall c, update_cancellable (plugin w) = Some c
                \/ name_owner_cancellable (plugin w) = Some c ->
                c ∈ cancelled w')
  /\ (forall i, name_owner_changed_id (plugin w) = S i -> S i ∉ subscriptions w')
  /\ dbus_connection (plugin w') = dbus_connection (plugin w)
  /\ name_owner (plugin w') = name_owner (plugin w)
  /\ latest_update_args (plugin w') = latest_update_args (plugin w)
  /\ emitted w' EvStop = []
  /\ step w' EvStop = w'
  /\ (forall s, dbus_connection (priv (dispose s).2) = None)
  /\ (reachable w ->
      (forall c, c ∈ calls w' -> c ∈ cancelled w')
      /\ (forall c, c ∈ lookups w' -> c ∈ cancelled w')
      /\ subscriptions w' = []).
Proof.
  destruct w as [[conn uc no id nc la] lid can cs ls ss].
  assert (Hd : forall s, dbus_connection (priv (dispose s).2) = None).
  { intros [[? ? ? ? ? ?] ? ?]. by rewrite dispose_spec. }
  unfold emitted, step, run_event, handler. cbn [plugin last_id].
  rewrite stop_spec.
  destruct uc as [u|], nc as [n|], id as [|i]; simpl; rewrite ?stop_spec; simpl.
  all: repeat split; try done.
  all: try (intros c [?|?]; set_solver).
  all: try (intros j [= ->]; rewrite list_elem_of_filter; naive_solver).
  all: match goal with
       | Hr : reachable _ |- _ =>
           apply reachable_Inv in Hr;
           destruct Hr as [H1 H2 H3 H4 H5 H6 H7 H8 H9 H10 H11 H12]; simpl in *
       end.
  all: subst ss; cbn; repeat case_decide; try done.
  all: repeat split; try done.
  all: intros c Hc; destruct (decide (c ∈ can)); set_solver.
Qed.

(** [stop] while the plugin waits for the owner: the subscription is removed,
    the connection is kept. *)
Lemma C2_stop_cancels_witness :
  subscriptions (@step sample world_waiting EvStop) = []
  /\ dbus_connection (plugin (@step sample world_waiting EvStop)) = Some 7.
Proof.
  assert (Hr : @reachable sample world_waiting) by reach_waiting.
  destruct (@C2_stop_cancels sample world_waiting)
    as (_ & _ & _ & _ & _ & _ & Hconn & _ & _ & _ & _ & _ & Hw).
  split; [apply (Hw Hr) | exact (eq_trans Hconn eq_refl)].
Defined.

(** Claim C2 as it is stated fails: after [stop] the plugin still holds the
    connection (and the owner). *)
Lemma C2_stop_keeps_connection_counterexample : ~ stop_disconnects st_call_outstanding.
Proof. intros [H _]. discriminate H. Qed.

(** C3: in every world the main loop reaches, a call that the plugin issues
    goes to an owner that is cached, and not empty, when the event has been
    handled.  While no owner is cached, [update] issues no call and retains the
    message it has just built in place of the one before, and no other event
    changes the retained message.  When then a lookup completion or a signal
    reports an owner that is not empty, exactly one call is issued, to that
    owner and with the retained message. *)
Theorem C3_transmit_only_with_owner {ext : Collaborators} (w : World) (e : Event) :
  reachable w -> enabled w e ->
  (forall conn bus_name args c, EDBusCall conn bus_name args c ∈ emitted w e ->
     exists o, bus_name = Some o /\ o <> ""
               /\ name_owner (plugin (step w e)) = Some o)
  /\ (name_owner (plugin w) = None ->
      forall g ips main_connection logging_level,
        e = EvUpdate g ips main_connection logging_level ->
        calls_in (emitted w e) = []
        /\ name_owner (plugin (step w e)) = None
        /\ latest_update_args (plugin (step w e)) = Some (build_update_args g ips))
  /\ (is_update e = false ->
      latest_update_args (plugin (step w e)) = latest_update_args (plugin w))
  /\ (name_owner (plugin w) = None ->
      forall o, reports_owner e = Some o ->
        calls_in (emitted w e)
        = [EDBusCall (dbus_connection (plugin w)) (Some o)
             (latest_update_args (plugin w)) (S (last_id w))]
        /\ name_owner (plugin (step w e)) = Some o).
Proof.
  intros Hr He. apply reachable_Inv in Hr. split.
  { intros conn bn args c Hin.
    destruct (emitted_call_facts w e Hr He _ _ _ _ Hin)
      as (_ & Hbn & (o & Ho & Hne) & _).
    exists o. repeat split; try done. congruence. }
  split.
  { intros Hno g ips main lvl ->. unfold emitted.
    rewrite plugin_step, run_event_update.
    destruct (update_without_owner g ips main lvl (plugin w) (last_id w) Hno) as [-> ->].
    by rewrite update_latest. }
  split; [apply latest_step_other|].
  intros Hno o Ho. by apply owner_reported.
Qed.


(** The plugin waits for the owner; the lookup reports [:1.5]: one call, with
    the message of the [update] before. *)
Lemma C3_transmit_only_with_owner_witness :
  calls_in (@emitted sample world_waiting (EvGetNameOwnerDone 2 (Some ":1.5") None))
  = [EDBusCall (Some 7) (Some ":1.5")
       (Some (@build_update_args sample None [ip_data_scenario])) 3].
Proof.
  assert (Hr : @reachable sample world_waiting) by reach_waiting.
  assert (He : enabled world_waiting (EvGetNameOwnerDone 2 (Some ":1.5") None))
    by (vm_compute; reflexivity).
  destruct (@C3_transmit_only_with_owner sample world_waiting _ Hr He)
    as (_ & _ & _ & H).
  exact (proj1 (H eq_refl ":1.5" eq_refl)).
Defined.

(** C4: in every world the main loop reaches, at most one call is outstanding
    and not cancelled, and it is the one whose cancellable the plugin holds.
    [send_dnsconfd_update] cancels the cancellable it holds before it issues
    the new call; once an event has issued a call, every call from before is
    cancelled and the new one is the only live one.  The completion of a
    cancelled call returns at once: no log, no notification, no change of the
    private data. *)
Theorem C4_single_flight {ext : Collaborators} (w : World) :
  reachable w ->
  length (live_calls w) <= 1
  /\ (forall c, c ∈ live_calls w -> update_cancellable (plugin w) = Some c)
  /\ (forall e conn bus_name args c,
        enabled w e -> EDBusCall conn bus_name args c ∈ emitted w e ->
        (forall c', c' ∈ calls w -> c' ∈ cancelled (step w e))
        /\ live_calls (step w e) = [c])
  /\ (forall s, exists c,
        trace (send_dnsconfd_update s).2
        = trace s ++ opt_cancel (update_cancellable (priv s))
            ++ [EDBusCall (dbus_connection (priv s)) (name_owner (priv s))
                  (latest_update_args (priv s)) c;
                EPendingMaybeChanged true])
  /\ (forall c response error,
        enabled w (EvUpdateDone c response error) -> c ∈ cancelled w ->
        run_event w (EvUpdateDone c response error)
        = (Ok tt, mkSt (plugin w) (last_id w) []))
  /\ (forall response error s,
        nm_utils_error_is_cancelled error = true ->
        dnsconfd_update_done response error s = (Ok tt, s)).
Proof.
  intros Hr. pose proof (reachable_Inv w Hr) as HI.
  split; [by apply live_calls_at_most_one|].
  split. { intros c [Hc Hin]%list_elem_of_filter. by apply HI. }
  split.
  { intros e conn bn args c He Hin.
    destruct (emitted_call_facts w e HI He _ _ _ _ Hin)
      as (_ & _ & _ & _ & _ & _ & _ & Hold & _ & Hlive).
    by split. }
  split.
  { intros [[conn uc no id nc la] fr tr]. rewrite send_spec. by eexists. }
  split.
  { intros c resp err He Hc. unfold enabled in He. simpl in He.
    apply andb_prop in He as [_ He]. apply bool_decide_eq_true in He.
    rewrite bool_decide_eq_true_2 in He by done.
    unfold run_event, handler. by apply cancelled_completion. }
  apply cancelled_completion.
Qed.


(** The world in which the owner is known and one call has been issued. *)
Lemma C4_single_flight_witness : length (live_calls world_owner_known) <= 1.
Proof.
  assert (Hr : @reachable sample world_owner_known) by reach_owner_known.
  exact (proj1 (@C4_single_flight sample world_owner_known Hr)).
Defined.

(** C5 (as amended): the default domain counts as explicitly claimed exactly
    when some search list (plain-domain lists are not read) holds an entry
    that is [.] once its routing-only marker is set aside, that is [~.] or [.].
    When it is claimed, no interface gets a synthesized [.]: the routing-domain
    list is the list of its entries.  When it is not, every interface that
    holds the best default route of its family gets [.] appended to that
    list. *)
Theorem C5_default_domain (ip_data_lst : list NMDnsConfigIPData) :
  (is_default_interface_explicit ip_data_lst = true <-> has_dot_entry ip_data_lst)
  /\ (has_routing_only_dot ip_data_lst -> has_dot_entry ip_data_lst)
  /\ (has_dot_entry ip_data_lst ->
      forall ip_data,
        routing_domains_of ip_data_lst ip_data
        = strv_or_null (parsed_domains (domains_in_use ip_data)))
  /\ (~ has_dot_entry ip_data_lst ->
      forall ip_data, best_default_route ip_data = true ->
        routing_domains_of ip_data_lst ip_data
        = Some (parsed_domains (domains_in_use ip_data) ++ ["."])).
Proof.
  pose proof (is_default_interface_explicit_iff ip_data_lst) as Hiff.
  split; [done|]. split.
  { intros (ip & Hip & Hd). exists ip, "~.". auto. }
  unfold routing_domains_of. split.
  - intros Hdot ip. apply Hiff in Hdot.
    rewrite gather_interface_domains_spec, Hdot. simpl. by rewrite app_nil_r.
  - intros Hdot ip Hbest.
    destruct (is_default_interface_explicit ip_data_lst) eqn:He.
    { exfalso. by apply Hdot, Hiff. }
    rewrite gather_interface_domains_spec, Hbest. simpl.
    by destruct (parsed_domains (domains_in_use ip)).
Qed.

(** The scenario of the specification: no domains, the default route, hence
    the routing-domain list [.]. *)
Lemma C5_default_domain_witness :
  routing_domains_of [ip_data_scenario] ip_data_scenario = Some ["."].
Proof.
  refine (proj2 (proj2 (proj2 (C5_default_domain [ip_data_scenario]))) _
            ip_data_scenario eq_refl).
  intros (ip & d & Hip & Hd & _).
  apply list_elem_of_singleton in Hip. subst ip. simpl in Hd.
  by apply elem_of_nil in Hd.
Defined.

(** Claim C5 as it is stated fails: a search entry [.] without the marker is
    no routing-only entry, yet the interface that holds the default route gets
    no synthesized [.]. *)
Lemma C5_plain_dot_counterexample :
  ~ synthesized_unless_routing_only_dot ip_data_plain_dot.
Proof.
  intros [_ H].
  assert (Hno : ~ has_routing_only_dot ip_data_plain_dot).
  { intros (ip & Hip & Hd). unfold ip_data_plain_dot in Hip.
    repeat (rewrite elem_of_cons in Hip || rewrite elem_of_nil in Hip).
    destruct Hip as [->|[->|[]]]; simpl in Hd;
      repeat (rewrite elem_of_cons in Hd || rewrite elem_of_nil in Hd);
      naive_solver. }
  specialize (H Hno ip_data_default_route).
  discriminate H; [|reflexivity].
  unfold ip_data_plain_dot. set_solver.
Qed.

(** C6: [update] always returns, and it returns an error exactly when the
    plugin holds no connection and none can be obtained; then no call is
    issued.  With a connection and no owner it returns success without a call;
    with an owner it returns success and issues one call, to that owner, with
    the message just built, which it has retained in every case. *)
Theorem C6_update_result {ext : Collaborators}
    (g : option NMGlobalDnsConfig) (ips : list NMDnsConfigIPData)
    (main_connection : option GDBusConnection) (logging_level : NMLogLevel) (s : St) :
  exists ok err s' t,
    update g ips main_connection logging_level s = (Ok (ok, err), s')
    /\ trace s' = trace s ++ t
    /\ latest_update_args (priv s') = Some (build_update_args g ips)
    /\ (ok = false <-> dbus_connection (priv s) = None /\ main_connection = None)
    /\ (ok = false <-> is_Some err)
    /\ (ok = false -> calls_in t = [])
    /\ (ok = true -> name_owner (priv s) = None -> calls_in t = [])
    /\ (ok = true -> forall o, name_owner (priv s) = Some o ->
          calls_in t
          = [EDBusCall (connection_after (dbus_connection (priv s)) main_connection)
               (Some o) (Some (build_update_args g ips)) (S (fresh s))]).
Proof.
  destruct s as [[conn uc no id nc la] fr tr].
  rewrite update_spec. simpl. rewrite ensure_all_connected_spec.
  set (a := build_update_args g ips).
  pose proof (calls_in_local _ (update_logs_local g logging_level a)) as Hl.
  destruct conn as [c|], main_connection as [m|]; simpl.
  4: { eexists false, _, _, (update_logs g logging_level a). simpl.
       repeat split; try done; try (by eexists); naive_solver. }
  all: destruct no as [o|].
  all: try (rewrite send_spec; simpl).
  all: try (destruct id, nc; simpl).
  all: eexists true, None, _, _; simpl.
  all: split; [reflexivity|].
  all: rewrite <- ?app_assoc.
  all: split; [first [reflexivity | by rewrite app_nil_r]|].
  all: rewrite ?calls_in_app, ?Hl.
  all: repeat split; try done; try (by intros []); try (by intros [? ?]).
  all: try (destruct uc; simpl; naive_solver).
  all: try (by intros _ ?).
Qed.

(** No connection held and none to obtain: [update] returns the error. *)
Lemma C6_update_result_witness :
  exists err s',
    @update sample None [] None LOGL_INFO (mkSt priv_init 0 []) = (Ok (false, err), s')
    /\ is_Some err.
Proof.
  destruct (@C6_update_result sample None [] None LOGL_INFO (mkSt priv_init 0 []))
    as (ok & err & s' & t & Hrun & _ & _ & Hok & Herr & _).
  assert (ok = false) as -> by (apply Hok; split; reflexivity).
  exists err, s'. split; [exact Hrun | by apply Herr].
Defined.

(** C7: the records of the interfaces in the message of [update] are, for
    every interface in snapshot order, one record for each of its nameserver
    strings that validates, in order.  Their number is the number of strings
    that validate, an interface without nameservers contributes none, a string
    that does not validate is passed over while the strings before and after
    it are still handled, and what [update] returns does not depend on the
    snapshot, so that no error is surfaced for such a string. *)
Theorem C7_one_record_per_valid_nameserver {ext : Collaborators}
    (global_config : option NMGlobalDnsConfig) (ip_data_lst : list NMDnsConfigIPData) :
  let explicit := is_default_interface_explicit ip_data_lst in
  let ca := global_config ≫= certification_authority in
  servers (build_update_args global_config ip_data_lst)
  = global_records global_config ++ flat_map (interface_records explicit ca) ip_data_lst
  /\ (forall ip_data,
        length (interface_records explicit ca ip_data)
        = length (List.filter (validates (addr_family ip_data)) (nameservers ip_data)))
  /\ (forall ip_data,
        nameservers ip_data = [] -> interface_records explicit ca ip_data = [])
  /\ (forall af before s after,
        nm_dns_uri_parse af s = None ->
        validated af (before ++ s :: after) = validated af before ++ validated af after)
  /\ (forall other main_connection logging_level st,
        (update global_config ip_data_lst main_connection logging_level st).1
        = (update global_config other main_connection logging_level st).1).
Proof.
  intros explicit ca. split; [apply build_update_args_servers|].
  split. { intros ip. unfold interface_records. by rewrite length_map, validated_length. }
  split. { intros ip Hns. unfold interface_records. by rewrite Hns. }
  split. { apply validated_skip. }
  intros other main lvl st. by rewrite !update_result.
Qed.

(** An interface without nameservers and the interface of the scenario: the
    message holds the records of the second only. *)
Lemma C7_one_record_per_valid_nameserver_witness :
  servers (@build_update_args sample None [ip_data_empty; ip_data_scenario])
  = @interface_records sample false None ip_data_scenario.
Proof.
  rewrite (proj1 (@C7_one_record_per_valid_nameserver sample None
                    [ip_data_empty; ip_data_scenario])).
  reflexivity.
Defined.

(** C8 (as amended): with a policy, the message starts with the records of the
    override domains: for every domain that lists servers, one record for
    each server string that validates, with the routing-domain list holding
    the name of the domain ([.] for the name [*]) and with the search suffixes
    and the CA of the policy; a domain without servers contributes none.  The
    resolve-mode is the one of the policy, and 0 without policy. *)
Theorem C8_global_records {ext : Collaborators}
    (g : NMGlobalDnsConfig) (ip_data_lst : list NMDnsConfigIPData) :
  servers (build_update_args (Some g) ip_data_lst)
  = flat_map (global_domain_records g) (global_domains g)
    ++ flat_map (interface_records (is_default_interface_explicit ip_data_lst)
                                   (certification_authority g)) ip_data_lst
  /\ (forall d r, r ∈ global_domain_records g d ->
        ("routing_domains", VStrv [routing_domain_of_name (domain_name d)]) ∈ r
        /\ (forall se, global_searches g = Some se -> ("search_domains", VStrv se) ∈ r)
        /\ (forall ca, certification_authority g = Some ca -> ("ca", VString ca) ∈ r))
  /\ routing_domain_of_name "*" = "."
  /\ (forall name, name <> "*" -> routing_domain_of_name name = name)
  /\ (forall d,
        length (global_domain_records g d)
        = length (List.filter (validates AF_UNSPEC) (default [] (domain_servers d))))
  /\ (forall d, domain_servers d = None \/ domain_servers d = Some [] ->
        global_domain_records g d = [])
  /\ resolve_mode (build_update_args (Some g) ip_data_lst) = global_resolve_mode g
  /\ resolve_mode (build_update_args None ip_data_lst) = 0%Z
  /\ global_records None = [].
Proof.
  split; [apply (build_update_args_servers (Some g))|].
  split.
  { intros d r. unfold global_domain_records.
    destruct (domain_servers d) as [l|]; [|by rewrite elem_of_nil].
    rewrite list_elem_of_In, in_map_iff. intros (srv & <- & _).
    split; [apply wire_base_routing|].
    split; intros x ->; [apply wire_base_searches|apply wire_base_ca]. }
  split; [done|].
  split.
  { intros name Hne. unfold routing_domain_of_name.
    destruct (String.eqb name "*") eqn:E; [|done]. by apply String.eqb_eq in E. }
  split.
  { intros d. unfold global_domain_records.
    destruct (domain_servers d) as [l|]; simpl; [|done].
    by rewrite length_map, validated_length. }
  split.
  { intros d [H|H]; unfold global_domain_records; by rewrite H. }
  split; [apply (build_update_args_resolve_mode (Some g))|].
  split; [apply (build_update_args_resolve_mode None)|done].
Qed.

(** The policy of the scenario of the specification: one domain, one server
    that validates, one record. *)
Lemma C8_global_records_witness :
  length (@global_domain_records sample global_scenario
            {| domain_name := "internal.example"; domain_servers := Some ["1.2.3.4"] |})
  = 1.
Proof.
  rewrite (proj1 (proj2 (proj2 (proj2 (proj2
             (@C8_global_records sample global_scenario [])))))).
  reflexivity.
Defined.

(** Claim C8 as it is stated fails: a server string of the policy that does
    not validate gets no record. *)
Lemma C8_invalid_server_counterexample :
  ~ (forall (ext : Collaborators) (g : NMGlobalDnsConfig),
       @one_record_per_global_server ext g).
Proof.
  intros H. specialize (H sample global_bad_server).
  unfold one_record_per_global_server in H. discriminate H.
Qed.

(** C9: in every world the main loop reaches, a subscription or a lookup
    exists only if a message is retained; every call the plugin issues carries
    a message; and the plugin subscribes and looks the owner up only while it
    handles [update], which has stored the message it built by then. *)
Theorem C9_message_present {ext : Collaborators} (w : World) :
  reachable w ->
  (subscriptions w <> [] \/ lookups w <> [] ->
   is_Some (latest_update_args (plugin w)))
  /\ (forall e conn bus_name args c,
        enabled w e -> EDBusCall conn bus_name args c ∈ emitted w e ->
        is_Some args /\ args = latest_update_args (plugin (step w e)))
  /\ (forall e x,
        x ∈ emitted w e -> is_discovery x = true ->
        exists g ips main_connection logging_level,
          e = EvUpdate g ips main_connection logging_level
          /\ latest_update_args (plugin (step w e)) = Some (build_update_args g ips)).
Proof.
  intros Hr. pose proof (reachable_Inv w Hr) as HI. split.
  { intros Hex. destruct (latest_update_args (plugin w)) eqn:Hla; [by eexists|].
    destruct (inv_latest w HI Hla) as [? ?]. naive_solver. }
  split.
  { intros e conn bn args c He Hin.
    by destruct (emitted_call_facts w e HI He _ _ _ _ Hin)
      as (_ & _ & _ & Hargs & Hsome & _). }
  intros e x Hin Hx. pose proof (discovery_only_in_update w e x Hin Hx) as Hu.
  destruct e as [g ips main lvl| | | |]; try done.
  exists g, ips, main, lvl. split; [done|].
  by rewrite plugin_step, run_event_update, update_latest.
Qed.

(** The plugin waits for the owner: a subscription exists, a message is
    retained. *)
Lemma C9_message_present_witness : is_Some (latest_update_args (plugin world_waiting)).
Proof.
  assert (Hr : @reachable sample world_waiting) by reach_waiting.
  apply (proj1 (@C9_message_present sample world_waiting Hr)).
  left. vm_compute. discriminate.
Defined.

(** C10: when the owner reported, the empty string taken as absent, is the
    owner the plugin has cached, [name_owner_changed] and the two callbacks
    that lead to it return at once: the private data are unchanged and nothing
    is emitted, neither a call nor a notification.  Hence reporting an owner a
    second time never has an effect. *)
Theorem C10_same_owner_is_noop (s : St) (o : option string) :
  nm_str_not_empty o = name_owner (priv s) ->
  name_owner_changed o s = (Ok tt, s)
  /\ (forall error, get_name_owner_cb o error s = (Ok tt, s))
  /\ (forall name old_owner new_owner,
        o = Some new_owner ->
        name_owner_changed_cb (ParametersSSS name old_owner new_owner) s = (Ok tt, s))
  /\ (forall s0, name_owner_changed o (name_owner_changed o s0).2
                 = (Ok tt, (name_owner_changed o s0).2)).
Proof.
  intros Ho.
  assert (H1 : name_owner_changed o s = (Ok tt, s)).
  { destruct s as [[conn uc no id nc la] fr tr]. simpl in Ho.
    rewrite name_owner_changed_spec.
    by rewrite (proj2 (nm_streq0_true no (nm_str_not_empty o))). }
  split; [done|]. split.
  { intros error. unfold get_name_owner_cb. by case_match. }
  split.
  { intros n old new ->. done. }
  intros [[conn uc no id nc la] fr tr]. rewrite name_owner_changed_spec.
  destruct (nm_streq0 no (nm_str_not_empty o)) eqn:E; simpl.
  - by rewrite name_owner_changed_spec, E.
  - destruct (nm_str_not_empty o) as [x|] eqn:Ex; simpl;
      rewrite name_owner_changed_spec, Ex;
      by rewrite (proj2 (nm_streq0_true _ _) eq_refl).
Qed.


(** The owner [:1.5] reported while it is the cached owner. *)
Lemma C10_same_owner_is_noop_witness :
  name_owner_changed (Some ":1.5") st_call_outstanding = (Ok tt, st_call_outstanding).
Proof.
  exact (proj1 (C10_same_owner_is_noop st_call_outstanding (Some ":1.5") eq_refl)).
Defined.

(** * Further properties of the message builder *)


Lemma strv_or_null_Some l k : strv_or_null l = Some k -> l = k /\ k <> [].
Proof. destruct l; simpl; [done|]. by intros [= <-]. Qed.

Lemma elem_of_opt_entry {A} k v key (mk : A -> GVariant) x :
  (k, v) ∈ opt_entry key mk x <-> k = key /\ exists a, x = Some a /\ v = mk a.
Proof.
  destruct x as [a|]; simpl.
  - rewrite list_elem_of_singleton. naive_solver.
  - rewrite elem_of_nil. naive_solver.
Qed.

Lemma opt_entry_keys {A} key (mk : A -> GVariant) x :
  (opt_entry key mk x).*1 `sublist_of` [key].
Proof. destruct x; simpl; [done|apply sublist_nil_l]. Qed.

Lemma elem_of_wire_base k v s rd sd ca :
  (k, v) ∈ wire_base s rd sd ca <->
  (k = "address"
   /\ v = VBytes (firstn (nm_utils_addr_family_to_size (dns_addr_family s)) (addr s)))
  \/ (k = "protocol" /\ scheme s = NM_DNS_URI_SCHEME_TLS /\ v = VString "dns+tls")
  \/ (k = "name" /\ exists n, servername s = Some n /\ v = VString n)
  \/ (k = "routing_domains" /\ exists l, rd = Some l /\ v = VStrv l)
  \/ (k = "search_domains" /\ exists l, sd = Some l /\ v = VStrv l)
  \/ (k = "ca" /\ exists c, ca = Some c /\ v = VString c).
Proof.
  unfold wire_base.
  rewrite !elem_of_app, !elem_of_opt_entry, list_elem_of_singleton.
  destruct (scheme s); rewrite ?elem_of_nil, ?list_elem_of_singleton; naive_solver.
Qed.

Section BuilderMore.
Context {ext : Collaborators}.

Lemma elem_of_wire_interface_info k v ip :
  (k, v) ∈ wire_interface_info ip <->
  (k = "connection-id" /\ exists a, connection_id ip = Some a /\ v = VString a)
  \/ (k = "connection-uuid" /\ exists a, connection_uuid ip = Some a /\ v = VString a)
  \/ (k = "connection-object" /\ exists a, dbus_path ip = Some a /\ v = VString a)
  \/ (k = "interface" /\ exists a, ifname ip = Some a /\ v = VString a)
  \/ (k = "networks" /\ exists l, get_networks ip = Some l /\ v = VStrv l).
Proof.
  unfold wire_interface_info. rewrite !elem_of_app, !elem_of_opt_entry. naive_solver.
Qed.

Lemma wire_base_keys s rd sd ca : (wire_base s rd sd ca).*1 `sublist_of` base_keys.
Proof.
  unfold wire_base, base_keys. rewrite !fmap_app.
  change ["address"; "protocol"; "name"; "routing_domains"; "search_domains"; "ca"]
    with (["address"] ++ ["protocol"] ++ ["name"] ++ ["routing_domains"]
          ++ ["search_domains"] ++ ["ca"]).
  repeat apply sublist_app; try apply opt_entry_keys; try done.
  destruct (scheme s); simpl; by repeat constructor.
Qed.

Lemma wire_interface_info_keys ip :
  (wire_interface_info ip).*1 `sublist_of` interface_keys.
Proof.
  unfold wire_interface_info, interface_keys. rewrite !fmap_app.
  change ["connection-id"; "connection-uuid"; "connection-object"; "interface"; "networks"]
    with (["connection-id"] ++ ["connection-uuid"] ++ ["connection-object"]
          ++ ["interface"] ++ ["networks"]).
  repeat apply sublist_app; apply opt_entry_keys.
Qed.

(** A record of the message is a global record or the record of an interface
    of the snapshot. *)
Lemma elem_of_servers g ips r :
  r ∈ servers (build_update_args g ips) <->
  (exists g0 d s, g = Some g0 /\ d ∈ global_domains g0
      /\ (exists l, domain_servers d = Some l /\ s ∈ validated AF_UNSPEC l)
      /\ r = wire_base s (Some [routing_domain_of_name (domain_name d)])
               (global_searches g0) (certification_authority g0))
  \/ (exists ip s, ip ∈ ips /\ s ∈ validated (addr_family ip) (nameservers ip)
      /\ r = wire_base s
               (gather_interface_domains ip (is_default_interface_explicit ips)).1
               (gather_interface_domains ip (is_default_interface_explicit ips)).2
               (g ≫= certification_authority)
             ++ wire_interface_info ip).
Proof.
  rewrite build_update_args_servers, elem_of_app.
  assert (Hglobal : r ∈ global_records g <->
    exists g0 d s, g = Some g0 /\ d ∈ global_domains g0
      /\ (exists l, domain_servers d = Some l /\ s ∈ validated AF_UNSPEC l)
      /\ r = wire_base s (Some [routing_domain_of_name (domain_name d)])
               (global_searches g0) (certification_authority g0)).
  { destruct g as [g0|]; simpl.
    - rewrite list_elem_of_In, in_flat_map. split.
      + intros (d & Hd & Hr). apply list_elem_of_In in Hd, Hr.
        unfold global_domain_records in Hr.
        destruct (domain_servers d) as [l|] eqn:Hl; [|by apply elem_of_nil in Hr].
        apply list_elem_of_In, in_map_iff in Hr as (s & <- & Hs).
        apply list_elem_of_In in Hs. naive_solver.
      + intros (g1 & d & s & [= <-] & Hd & (l & Hl & Hs) & ->).
        exists d. rewrite <- !list_elem_of_In. split; [done|].
        unfold global_domain_records. rewrite Hl.
        apply list_elem_of_In, (in_map (fun s => wire_base s _ _ _)).
        by apply list_elem_of_In.
    - rewrite elem_of_nil. naive_solver. }
  rewrite Hglobal. clear Hglobal.
  assert (Hif : forall ca e,
    r ∈ flat_map (interface_records e ca) ips <->
    exists ip s, ip ∈ ips /\ s ∈ validated (addr_family ip) (nameservers ip)
      /\ r = wire_base s (gather_interface_domains ip e).1
                (gather_interface_domains ip e).2 ca
              ++ wire_interface_info ip).
  { intros ca e. rewrite list_elem_of_In, in_flat_map. split.
    - intros (ip & Hip & Hr). apply list_elem_of_In in Hip.
      unfold interface_records in Hr. apply in_map_iff in Hr as (s & <- & Hs).
      apply list_elem_of_In in Hs. naive_solver.
    - intros (ip & s & Hip & Hs & ->). exists ip. rewrite <- list_elem_of_In.
      split; [done|]. unfold interface_records.
      apply (in_map (fun s => wire_base s _ _ _ ++ wire_interface_info ip)).
      by apply list_elem_of_In. }
  by rewrite Hif.
Qed.

Lemma get_networks_fold af l acc :
  fold_left
    (fun acc r =>
       if NM_PLATFORM_IP_ROUTE_IS_DEFAULT r
          || Z.eqb (table_coerced r) NM_DNS_ROUTES_FWMARK_TABLE_PRIO
       then acc else acc ++ [format_network af r]) l acc
  = acc ++ map (format_network af) (List.filter route_listed l).
Proof.
  revert acc. induction l as [|r l IH]; intros acc; simpl.
  - by rewrite app_nil_r.
  - rewrite IH. unfold route_listed at 2.
    destruct (NM_PLATFORM_IP_ROUTE_IS_DEFAULT r
              || Z.eqb (table_coerced r) NM_DNS_ROUTES_FWMARK_TABLE_PRIO);
      simpl; by rewrite <- ?app_assoc.
Qed.

(** X1: [get_networks] lists, in the order of the routes, the text
    [address/prefix-length] of every route that is neither a default route nor
    a route of the table [NM_DNS_ROUTES_FWMARK_TABLE_PRIO].  It returns [NULL]
    instead of an empty list, and it returns [NULL] exactly when every route
    is of one of the two excluded kinds. *)
Theorem X1_get_networks (ip_data : NMDnsConfigIPData) :
  get_networks ip_data
  = strv_or_null (map (format_network (addr_family ip_data))
                      (List.filter route_listed (routes ip_data)))
  /\ (forall l, get_networks ip_data = Some l ->
        l <> [] /\ length l <= length (routes ip_data))
  /\ (get_networks ip_data = None <->
      forall r, r ∈ routes ip_data ->
        plen r = 0 \/ table_coerced r = NM_DNS_ROUTES_FWMARK_TABLE_PRIO).
Proof.
  assert (Heq : get_networks ip_data
    = strv_or_null (map (format_network (addr_family ip_data))
                        (List.filter route_listed (routes ip_data)))).
  { unfold get_networks. by rewrite get_networks_fold. }
  split; [done|]. rewrite Heq. split.
  - intros l [<- Hne]%strv_or_null_Some. split; [done|].
    rewrite length_map. apply List.filter_length_le.
  - assert (Hl : forall r, route_listed r = false <->
                plen r = 0 \/ table_coerced r = NM_DNS_ROUTES_FWMARK_TABLE_PRIO).
    { intros r. unfold route_listed, NM_PLATFORM_IP_ROUTE_IS_DEFAULT.
      rewrite negb_false_iff, orb_true_iff, Nat.eqb_eq, Z.eqb_eq. done. }
    assert (Hnil : forall l : list NMPlatformIPRoute,
              List.filter route_listed l = [] <->
              forall r, r ∈ l -> route_listed r = false).
    { induction l as [|r l IH]; simpl.
      - split; [|done]. intros _ r Hr. by apply elem_of_nil in Hr.
      - destruct (route_listed r) eqn:Hr.
        + split; [done|]. intros H. specialize (H r ltac:(left)). congruence.
        + rewrite IH. split.
          * intros H x [->|Hx]%elem_of_cons; [done|by apply H].
          * intros H x Hx. apply H. by right. }
    transitivity (List.filter route_listed (routes ip_data) = []).
    + destruct (List.filter route_listed (routes ip_data)); simpl; naive_solver.
    + rewrite Hnil. by setoid_rewrite Hl.
Qed.


(** X3: in every record of the message, a list under [routing_domains] or
    under [networks] is not empty; and an empty list under [search_domains]
    only occurs in a record of the policy, when the policy has an empty list
    of searches: the lists of an interface are left out when they are
    empty. *)
Theorem X3_lists_not_empty (g : option NMGlobalDnsConfig)
    (ips : list NMDnsConfigIPData) (r : Dict) (l : list string) :
  r ∈ servers (build_update_args g ips) ->
  (("routing_domains", VStrv l) ∈ r \/ ("networks", VStrv l) ∈ r -> l <> [])
  /\ (("search_domains", VStrv l) ∈ r -> l = [] ->
      exists g0, g = Some g0 /\ global_searches g0 = Some []
                 /\ r ∈ global_records g).
Proof.
  intros Hr. pose proof Hr as Hr'.
  apply elem_of_servers in Hr as
    [(g0 & d & s & -> & Hd & (ls & Hls & Hs) & ->)|(ip & s & Hip & Hs & ->)].
  - split.
    + rewrite !elem_of_wire_base. intros [H|H] ->; naive_solver.
    + rewrite elem_of_wire_base. intros H ->. exists g0.
      split; [done|]. split; [naive_solver|].
      simpl. rewrite list_elem_of_In, in_flat_map. exists d.
      rewrite <- !list_elem_of_In. split; [done|].
      unfold global_domain_records. rewrite Hls.
      apply list_elem_of_In, (in_map (fun s => wire_base s _ _ _)).
      by apply list_elem_of_In.
  - rewrite !elem_of_app, !elem_of_wire_base, !elem_of_wire_interface_info.
    rewrite gather_interface_domains_spec. simpl.
    pose proof (X1_get_networks ip) as (_ & Hn & _).
    split.
    + intros [[H|H]|[H|H]] ->; destruct_or?; destruct_and?; try done.
      all: repeat match goal with H : exists _, _ |- _ => destruct H as (? & ? & ?) end.
      all: simplify_eq.
      all: try (match goal with H : strv_or_null _ = Some [] |- _ =>
                  by apply strv_or_null_Some in H as [_ ?] end).
      all: by destruct (Hn [] ltac:(done)).
    + intros [H|H] ->; destruct_or?; destruct_and?; try done.
      all: repeat match goal with H : exists _, _ |- _ => destruct H as (? & ? & ?) end.
      all: simplify_eq.
      match goal with H : strv_or_null _ = Some [] |- _ =>
        by apply strv_or_null_Some in H as [_ ?] end.
Qed.

(** X4: every record of the message starts with its [address]; its keys are
    among the eleven keys of the builder, in the order in which the builder
    adds them and without repetition; a record of the policy carries none of
    the keys of an interface. *)
Theorem X4_record_keys (g : option NMGlobalDnsConfig)
    (ips : list NMDnsConfigIPData) (r : Dict) :
  r ∈ servers (build_update_args g ips) ->
  r.*1 `sublist_of` base_keys ++ interface_keys
  /\ NoDup r.*1
  /\ (exists bytes rest, r = ("address", VBytes bytes) :: rest)
  /\ (r ∈ global_records g -> r.*1 `sublist_of` base_keys).
Proof.
  intros Hr.
  assert (Hnd : NoDup (base_keys ++ interface_keys)).
  { apply (bool_decide_unpack _). vm_compute. exact I. }
  assert (Hsub : r.*1 `sublist_of` base_keys ++ interface_keys
                 /\ (exists bytes rest, r = ("address", VBytes bytes) :: rest)).
  { apply elem_of_servers in Hr as
      [(g0 & d & s & -> & Hd & (ls & Hls & Hs) & ->)|(ip & s & Hip & Hs & ->)].
    - split; [|by eexists _, _].
      apply sublist_inserts_r, wire_base_keys.
    - split; [|by eexists _, _].
      rewrite fmap_app.
      apply sublist_app; [apply wire_base_keys|apply wire_interface_info_keys]. }
  destruct Hsub as [Hsub Hfirst].
  split; [done|]. split; [by eapply sublist_NoDup|]. split; [done|].
  destruct g as [g0|]; simpl; [|by rewrite elem_of_nil].
  rewrite list_elem_of_In, in_flat_map. intros (d & _ & Hd).
  unfold global_domain_records in Hd. destruct (domain_servers d); [|done].
  apply in_map_iff in Hd as (s & <- & _). apply wire_base_keys.
Qed.

(** X5: the CA is the one of the policy on every record, those of the
    interfaces included: a record of the message has the key [ca] exactly when
    there is a policy with a CA, and then with that CA as value. *)
Theorem X5_ca_on_every_record (g : option NMGlobalDnsConfig)
    (ips : list NMDnsConfigIPData) (r : Dict) (v : GVariant) :
  r ∈ servers (build_update_args g ips) ->
  ("ca", v) ∈ r <->
  exists g0 ca, g = Some g0 /\ certification_authority g0 = Some ca /\ v = VString ca.
Proof.
  intros Hr.
  apply elem_of_servers in Hr as
    [(g0 & d & s & -> & Hd & (ls & Hls & Hs) & ->)|(ip & s & Hip & Hs & ->)].
  - rewrite elem_of_wire_base. naive_solver.
  - rewrite elem_of_app, elem_of_wire_base, elem_of_wire_interface_info.
    destruct g as [g0|]; simpl; naive_solver.
Qed.
End BuilderMore.

Lemma X1_get_networks_witness :
  @get_networks sample ip_data_scenario = Some ["10.0.0.0/24"].
Proof.
  rewrite (proj1 (@X1_get_networks sample ip_data_scenario)). reflexivity.
Defined.


Lemma X3_lists_not_empty_witness :
  ("networks", VStrv ["10.0.0.0/24"]) ∈ @interface_records_scenario
  /\ ["10.0.0.0/24"] <> [].
Proof.
  assert (Hr : interface_records_scenario
               ∈ servers (@build_update_args sample None [ip_data_scenario])).
  { vm_compute. left. }
  assert (Hin : ("networks", VStrv ["10.0.0.0/24"]) ∈ interface_records_scenario).
  { vm_compute. do 6 right. left. }
  split; [exact Hin|].
  exact (proj1 (@X3_lists_not_empty sample None [ip_data_scenario] _ _ Hr)
           (or_intror Hin)).
Defined.

Lemma X4_record_keys_witness : NoDup interface_records_scenario.*1.
Proof.
  assert (Hr : interface_records_scenario
               ∈ servers (@build_update_args sample None [ip_data_scenario])).
  { vm_compute. left. }
  exact (proj1 (proj2 (@X4_record_keys sample None [ip_data_scenario] _ Hr))).
Defined.

Lemma X5_ca_on_every_record_witness :
  ("ca", VString "/etc/ca.pem") ∈ global_record_scenario.
Proof.
  assert (Hr : global_record_scenario
               ∈ servers (@build_update_args sample (Some global_scenario)
                            [ip_data_scenario])).
  { vm_compute. left. }
  apply (proj2 (@X5_ca_on_every_record sample (Some global_scenario)
                  [ip_data_scenario] _ _ Hr)).
  by exists global_scenario, "/etc/ca.pem".
Defined.

(** * Further properties of the plugin *)

Ltac inv2_auto :=
  split; simpl in *;
  [ intros ?; elem_rw; set_unfold; naive_solver lia
  | subst; cbn; repeat case_decide; naive_solver ].

Lemma filter_ne_nil {A} (P : A -> Prop) `{!forall x, Decision (P x)} (l : list A) :
  filter P l <> [] -> l <> [].
Proof. by intros Hf ->. Qed.

Section PluginMore.
Context {ext : Collaborators}.

Lemma Inv2_init : Inv2 world_init.
Proof. split; simpl; [done|naive_solver]. Qed.

Lemma Inv2_name_owner_changed o conn uc no id nc la lid can cs ls ss :
  let w := {| plugin := mkPriv conn uc no id nc la; last_id := lid; cancelled := can;
              calls := cs; lookups := ls; subscriptions := ss |} in
  Inv w -> Inv2 w ->
  let s := (name_owner_changed o (mkSt (mkPriv conn uc no id nc la) lid [])).2 in
  Inv2 (fold_left absorb (trace s)
          {| plugin := priv s; last_id := fresh s; cancelled := can;
             calls := cs; lookups := ls; subscriptions := ss |}).
Proof.
  intros w [H1 H2 H3 H4 H5 H6 H7 H8 H9 H10 H11 H12] [P1 P2]. simpl in *.
  rewrite name_owner_changed_spec.
  destruct (nm_streq0 no (nm_str_not_empty o)); simpl; [by split|].
  destruct (nm_str_not_empty o) as [x|]; simpl.
  - destruct uc as [u|]; simpl; split; simpl; try done.
    all: intros c [= <-]; elem_rw; set_unfold; naive_solver lia.
  - by split.
Qed.

Lemma Inv2_step w e : Inv w -> Inv2 w -> enabled w e -> Inv2 (step w e).
Proof.
  intros HI HP He.
  destruct w as [[conn uc no id nc la] lid can cs ls ss].
  destruct e as [g ip main lvl| |c0 resp err|c0 o err|i [n old new|]].
  - destruct HI as [H1 H2 H3 H4 H5 H6 H7 H8 H9 H10 H11 H12].
    destruct HP as [P1 P2]. simpl in *.
    unfold step. rewrite run_event_update. simpl plugin. simpl last_id.
    rewrite update_spec. simpl. rewrite ensure_all_connected_spec.
    set (a := build_update_args g ip).
    pose proof (update_logs_local g lvl a) as Hl.
    destruct conn as [k|], main as [m|]; simpl.
    4: { rewrite absorb_local by done. split; simpl; [done|]. intros H.
         by destruct (P2 H). }
    all: destruct no as [o|];
      [ rewrite send_spec; simpl; rewrite fold_left_app;
        rewrite (absorb_local (update_logs g lvl a)) by done;
        destruct uc as [u|]; simpl; (split; simpl; [|by eexists]);
        intros c [= <-]; elem_rw; set_unfold; naive_solver lia
      | destruct id, nc; simpl; rewrite ?fold_left_app;
        rewrite (absorb_local (update_logs g lvl a)) by done; simpl;
        (split; simpl; [done|by eexists]) ].
  - destruct HI as [H1 H2 H3 H4 H5 H6 H7 H8 H9 H10 H11 H12].
    destruct HP as [P1 P2]. simpl in *.
    unfold step, run_event, handler. simpl. rewrite stop_spec. simpl.
    destruct uc as [u|], nc as [n|], id as [|i]; simpl.
    all: split; simpl; [done|].
    all: intros [H|H]; apply P2; try (by right).
    all: try (by left). all: left; by apply filter_ne_nil in H.
  - destruct HI as [H1 H2 H3 H4 H5 H6 H7 H8 H9 H10 H11 H12].
    destruct HP as [P1 P2]. simpl in *.
    unfold enabled in He; simpl in He.
    apply andb_prop in He as [He Hc]. apply andb_prop in He as [Hin Hwf].
    apply bool_decide_eq_true in Hin, Hc.
    unfold step, run_event, handler. simpl. rewrite dnsconfd_update_done_spec.
    rewrite Hc. case_bool_decide as Hcan; simpl.
    + split; simpl; [|done]. intros c Hc'. destruct (P1 c Hc') as [? ?].
      split; [|done]. apply list_elem_of_filter. split; [congruence|done].
    + pose proof (H3 _ Hin Hcan) as Huc. subst uc.
      destruct resp as [[[] m]|], err as [e|]; try discriminate Hwf; simpl.
      all: by split.
  - unfold step, run_event, handler, get_name_owner_cb. simpl.
    assert (HI' : Inv {| plugin := mkPriv conn uc no id nc la; last_id := lid;
                         cancelled := can; calls := cs;
                         lookups := filter (fun i => i <> c0) ls;
                         subscriptions := ss |}).
    { destruct HI. inv_auto. }
    assert (HP' : Inv2 {| plugin := mkPriv conn uc no id nc la; last_id := lid;
                          cancelled := can; calls := cs;
                          lookups := filter (fun i => i <> c0) ls;
                          subscriptions := ss |}).
    { destruct HP as [P1 P2]. split; simpl in *; [done|].
      intros [H|H]; apply P2; [by left|right; by apply filter_ne_nil in H]. }
    destruct (negb (bool_decide (is_Some o))
              && g_error_matches err G_IO_ERROR G_IO_ERROR_CANCELLED); simpl; [done|].
    by apply (Inv2_name_owner_changed o).
  - unfold step, run_event, handler, name_owner_changed_cb. simpl.
    by apply (Inv2_name_owner_changed (Some new)).
  - unfold step, run_event, handler, name_owner_changed_cb. by simpl.
Qed.

Lemma reachable_Inv2 w : reachable w -> Inv2 w.
Proof.
  induction 1 as [|w e Hr IH He]; [apply Inv2_init|].
  apply Inv2_step; [by apply reachable_Inv|done|done].
Qed.

Lemma nodup_all_eq {A} (l : list A) (c : A) :
  NoDup l -> (forall x, x ∈ l <-> x = c) -> l = [c].
Proof.
  intros Hnd Hall. destruct l as [|a [|b l]].
  - pose proof (proj2 (Hall c) eq_refl) as Hc. by apply elem_of_nil in Hc.
  - f_equal. apply Hall. by left.
  - exfalso. apply NoDup_cons in Hnd as [Hnd _].
    assert (a = c) by (apply Hall; by left).
    assert (b = c) by (apply Hall; right; by left).
    subst. apply Hnd. by left.
Qed.

Lemma live_calls_field w :
  reachable w -> live_calls w = option_list (update_cancellable (plugin w)).
Proof.
  intros Hr. pose proof (reachable_Inv w Hr) as HI.
  pose proof (reachable_Inv2 w Hr) as [P1 _].
  unfold live_calls. destruct (update_cancellable (plugin w)) as [c|] eqn:Huc; simpl.
  - apply nodup_all_eq; [apply NoDup_filter, HI|].
    intros x. rewrite list_elem_of_filter. split.
    + intros [Hx Hin]. pose proof (inv_calls_live w HI x Hin Hx). congruence.
    + intros ->. destruct (P1 c eq_refl). done.
  - apply elem_of_nil_inv. intros x [Hx Hin]%list_elem_of_filter.
    pose proof (inv_calls_live w HI x Hin Hx). congruence.
Qed.

(** X6: in every world the main loop reaches, the calls that are outstanding
    and not cancelled are the one whose cancellable the plugin holds, if it
    holds one; [get_update_pending] therefore returns true exactly when such a
    call exists, and changes nothing. *)
Theorem X6_pending_tracks_call (w : World) (fr : nat) (tr : list Effect) :
  reachable w ->
  live_calls w = option_list (update_cancellable (plugin w))
  /\ get_update_pending (mkSt (plugin w) fr tr)
     = (Ok (bool_decide (live_calls w <> [])), mkSt (plugin w) fr tr).
Proof.
  intros Hr. pose proof (live_calls_field w Hr) as Hlive.
  split; [done|]. rewrite Hlive.
  unfold get_update_pending, _update_pending_detect. unfold_monad. simpl.
  by destruct (update_cancellable (plugin w)).
Qed.

(** X7: in every world the main loop reaches there is at most one
    subscription, the one whose id the plugin holds, and at most one lookup
    that is outstanding and not cancelled, the one whose cancellable it holds.
    An event subscribes only when there is no subscription, and starts a
    lookup only when the plugin holds no lookup cancellable. *)
Theorem X7_no_duplicate_discovery (w : World) :
  reachable w ->
  length (subscriptions w) <= 1
  /\ length (live_lookups w) <= 1
  /\ (forall i, i ∈ subscriptions w <->
                i = name_owner_changed_id (plugin w) /\ i <> 0)
  /\ (forall c, c ∈ live_lookups w -> name_owner_cancellable (plugin w) = Some c)
  /\ (forall e x, x ∈ emitted w e ->
        (forall conn i, x = ESubscribe conn i -> subscriptions w = [])
        /\ (forall conn c, x = EGetNameOwner conn c ->
              name_owner_cancellable (plugin w) = None /\ live_lookups w = [])).
Proof.
  intros Hr. pose proof (reachable_Inv w Hr) as HI.
  pose proof (inv_subscriptions w HI) as Hs.
  split. { rewrite Hs. destruct (name_owner_changed_id (plugin w)); simpl; lia. }
  assert (Hll : forall c, c ∈ live_lookups w ->
                          name_owner_cancellable (plugin w) = Some c).
  { intros c [Hc Hin]%list_elem_of_filter. by apply HI. }
  split.
  { assert (Hnd : NoDup (live_lookups w)) by apply NoDup_filter, HI.
    destruct (live_lookups w) as [|a [|b l]]; simpl; [lia|lia|].
    exfalso. pose proof (Hll a ltac:(set_solver)). pose proof (Hll b ltac:(set_solver)).
    apply NoDup_cons in Hnd as [Hnd _]. set_solver. }
  split.
  { intros i. rewrite Hs. destruct (name_owner_changed_id (plugin w)).
    - rewrite elem_of_nil. naive_solver.
    - rewrite list_elem_of_singleton. naive_solver. }
  split; [done|].
  intros e x Hin.
  assert (Hd : is_discovery x = true ->
    (forall conn i, x = ESubscribe conn i -> name_owner_changed_id (plugin w) = 0)
    /\ (forall conn c, x = EGetNameOwner conn c ->
          name_owner_cancellable (plugin w) = None)).
  { intros Hx. pose proof (discovery_only_in_update w e x Hin Hx) as Hu.
    destruct e as [g ips main lvl| | | |]; try done.
    unfold emitted in Hin. rewrite run_event_update in Hin.
    destruct (plugin w) as [conn uc no id nc la]. simpl.
    rewrite update_spec in Hin. simpl in Hin.
    rewrite ensure_all_connected_spec in Hin.
    assert (Hlog : x ∈ update_logs g lvl (build_update_args g ips) -> False).
    { intros Hl%update_logs_no_call. by destruct x. }
    destruct (connection_after conn main); simpl in Hin; [|call_inv Hin; done].
    destruct no; [rewrite send_spec in Hin; simpl in Hin; destruct uc; simpl in Hin|].
    1,2: call_inv Hin; done.
    destruct id, nc; simpl in Hin; call_inv Hin; try done; naive_solver. }
  split.
  - intros conn i ->. destruct (Hd eq_refl) as [H _]. rewrite Hs.
    by rewrite (H conn i eq_refl).
  - intros conn c ->. destruct (Hd eq_refl) as [_ H].
    split; [by apply (H conn c)|].
    apply elem_of_nil_inv. intros y Hy. pose proof (Hll y Hy).
    rewrite (H conn c eq_refl) in *. done.
Qed.

(** X8: [ensure_all_connected] is idempotent: when it has not failed, running
    it again, whatever the main connection then is, returns the same state with
    nothing emitted and gives the same result. *)
Theorem X8_ensure_all_connected_idempotent
    (main_connection again : option GDBusConnection) (s : St) :
  (ensure_all_connected main_connection s).1 <> Ok CONNECTION_FAIL ->
  ensure_all_connected again (ensure_all_connected main_connection s).2
  = ensure_all_connected main_connection s.
Proof.
  destruct s as [[conn uc no id nc la] fr tr].
  rewrite ensure_all_connected_spec.
  destruct (connection_after conn main_connection) as [c|]; simpl; [|done].
  intros _. destruct no as [o|]; simpl.
  - by rewrite ensure_all_connected_spec.
  - destruct id, nc; simpl; by rewrite ensure_all_connected_spec.
Qed.

(** X9: in every world the main loop reaches, every call, subscription,
    removal of a subscription and lookup is issued on a connection that is
    present, the one the plugin holds; and no event of the main loop changes a
    connection the plugin holds. *)
Theorem X9_connection_present (w : World) (e : Event) :
  reachable w -> enabled w e ->
  (forall x conn, x ∈ emitted w e -> effect_connection x = Some conn ->
     is_Some conn /\ conn = dbus_connection (plugin (step w e)))
  /\ (forall c, dbus_connection (plugin w) = Some c ->
                dbus_connection (plugin (step w e)) = Some c).
Proof.
  intros Hr He. pose proof (reachable_Inv w Hr) as HI.
  pose proof (reachable_Inv2 w Hr) as [_ P2].
  pose proof (inv_subscriptions w HI) as Hs.
  rewrite plugin_step. unfold emitted.
  destruct w as [[conn uc no id nc la] lid can cs ls ss]. simpl in *.
  assert (Hchg : forall o, is_Some conn ->
    (forall x conn', x ∈ trace (name_owner_changed o
                                 (mkSt (mkPriv conn uc no id nc la) lid [])).2 ->
       effect_connection x = Some conn' ->
       is_Some conn'
       /\ conn' = dbus_connection (priv (name_owner_changed o
                    (mkSt (mkPriv conn uc no id nc la) lid [])).2))
    /\ (forall c, conn = Some c ->
          dbus_connection (priv (name_owner_changed o
             (mkSt (mkPriv conn uc no id nc la) lid [])).2) = Some c)).
  { intros o Hconn. rewrite name_owner_changed_spec.
    destruct (nm_streq0 no (nm_str_not_empty o)); simpl.
    { split; [|done]. intros x c' Hin. call_inv Hin. }
    destruct (nm_str_not_empty o); simpl; (split; [|done]).
    - intros x c' Hin. destruct uc; simpl in Hin; call_inv Hin; simpl; naive_solver.
    - intros x c' Hin. call_inv Hin. done. }
  destruct e as [g ip main lvl| |c0 resp err|c0 o err|i [n old new|]].
  - rewrite run_event_update. simpl plugin. simpl last_id.
    rewrite update_spec. simpl. rewrite ensure_all_connected_spec.
    assert (Hlog : forall x c', x ∈ update_logs g lvl (build_update_args g ip) ->
                     effect_connection x = Some c' -> False).
    { intros x c' Hl%update_logs_no_call. by destruct x. }
    destruct conn as [k|], main as [m|]; simpl.
    4: { split; [|done]. intros x c' Hin Hx. exfalso. eauto. }
    all: destruct no as [o|];
      [ rewrite send_spec; simpl; destruct uc; simpl
      | destruct id, nc; simpl ].
    all: split; [|done].
    all: intros x c' Hin; call_inv Hin; simpl; try (intros [= <-]; by eauto).
    all: intros Hx; exfalso; eauto.
  - unfold run_event, handler. cbn [plugin last_id]. rewrite stop_spec. simpl.
    split; [|done]. intros x c' Hin.
    destruct uc, nc, id; simpl in Hin; call_inv Hin; simpl; try done.
    all: intros [= <-]; split; [|done]; apply P2; by left.
  - unfold run_event, handler. cbn [plugin last_id].
    rewrite dnsconfd_update_done_spec.
    destruct (nm_utils_error_is_cancelled err); simpl.
    { split; [|done]. intros x c' Hin. call_inv Hin. }
    destruct resp as [[[] m]|], err, uc; simpl; (split; [|done]).
    all: intros x c' Hin; call_inv Hin; done.
  - unfold enabled in He; simpl in He.
    apply andb_prop in He as [Hin _]. apply bool_decide_eq_true in Hin.
    assert (Hconn : is_Some conn).
    { apply P2. right. intros ->. by apply elem_of_nil in Hin. }
    unfold run_event, handler, get_name_owner_cb. cbn [plugin last_id].
    destruct (negb (bool_decide (is_Some o))
              && g_error_matches err G_IO_ERROR G_IO_ERROR_CANCELLED); simpl.
    { split; [|done]. intros x c' Hx. call_inv Hx. }
    by apply Hchg.
  - unfold enabled in He; simpl in He. apply bool_decide_eq_true in He.
    assert (Hconn : is_Some conn).
    { apply P2. left. intros ->. by apply elem_of_nil in He. }
    unfold run_event, handler, name_owner_changed_cb. cbn [plugin last_id].
    by apply Hchg.
  - unfold run_event, handler, name_owner_changed_cb. simpl.
    split; [|done]. intros x c' Hx. call_inv Hx.
Qed.

(** X10: when an absent owner is reported while an owner is cached, by
    [name_owner_changed], by a lookup that failed without being cancelled or by
    a signal with an empty new owner, the plugin only forgets the owner and
    logs it: the outstanding call is not cancelled, the retained message is
    kept, no call is issued and the framework is not notified. *)
Theorem X10_owner_lost (s : St) (cached : string) (arg : option string) :
  name_owner (priv s) = Some cached -> nm_str_not_empty arg = None ->
  let lost :=
    (Ok tt, mkSt (set_name_owner None (priv s)) (fresh s)
              (trace s ++ [ELog LOGL_DEBUG "D-Bus name for dnsconfd disappeared"])) in
  name_owner_changed arg s = lost
  /\ (forall error,
        g_error_matches error G_IO_ERROR G_IO_ERROR_CANCELLED = false ->
        get_name_owner_cb None error s = lost)
  /\ (forall name old_owner,
        name_owner_changed_cb (ParametersSSS name old_owner "") s = lost).
Proof.
  intros Hc Harg lost.
  assert (H : forall a, nm_str_not_empty a = None -> name_owner_changed a s = lost).
  { intros a Ha. subst lost. destruct s as [[conn uc no id nc la] fr tr].
    simpl in Hc. subst no. by rewrite name_owner_changed_spec, Ha. }
  split; [by apply H|]. split.
  - intros error He. unfold get_name_owner_cb. rewrite He.
    rewrite andb_false_r. by apply H.
  - intros name old. by apply H.
Qed.

(** X11: in every world the main loop reaches, when the call that is live
    completes with a reply, whatever the daemon answered, the callback returns,
    no call is outstanding any more, no call is issued (a failure the daemon
    reports is logged as a warning with its message and not retried), and the
    framework is notified once, with pending false; owner and message stay. *)
Theorem X11_reply_completes_call (w : World) (c : GCancellable)
    (all_ok : bool) (m : string) (error : option GError) :
  reachable w -> enabled w (EvUpdateDone c (Some (all_ok, m)) error) ->
  c ∉ cancelled w ->
  let e := EvUpdateDone c (Some (all_ok, m)) error in
  (run_event w e).1 = Ok tt
  /\ live_calls (step w e) = []
  /\ update_cancellable (plugin (step w e)) = None
  /\ calls_in (emitted w e) = []
  /\ notifications (emitted w e) = [false]
  /\ ELog (if all_ok then LOGL_TRACE else LOGL_WARN)
          (if all_ok then "dnsconfd update successful"
           else "dnsconfd update failed: " +:+ m) ∈ emitted w e
  /\ name_owner (plugin (step w e)) = name_owner (plugin w)
  /\ latest_update_args (plugin (step w e)) = latest_update_args (plugin w).
Proof.
  intros Hr He Hc e.
  assert (Hr' : reachable (step w e)) by by apply reachable_step.
  pose proof (live_calls_field _ Hr') as Hlive.
  rewrite Hlive, plugin_step. unfold emitted.
  unfold enabled in He; simpl in He.
  apply andb_prop in He as [_ Hcan]. apply bool_decide_eq_true in Hcan.
  rewrite bool_decide_eq_false_2 in Hcan by done.
  destruct w as [[conn uc no id nc la] lid can cs ls ss].
  subst e. unfold run_event, handler. cbn [plugin last_id].
  rewrite dnsconfd_update_done_spec, Hcan.
  destruct all_ok, uc; simpl; repeat split; try done; set_solver.
Qed.

(** X12: [stop] keeps the cached owner.  An [update] that follows a [stop]
    while an owner is cached returns success and issues its call to that owner
    at once, without subscribing or looking the owner up again: the plugin is
    left without subscription. *)
Theorem X12_update_after_stop (s : St) (o : string) (c : GDBusConnection)
    (g : option NMGlobalDnsConfig) (ips : list NMDnsConfigIPData)
    (main_connection : option GDBusConnection) (logging_level : NMLogLevel) :
  name_owner (priv s) = Some o -> dbus_connection (priv s) = Some c ->
  exists s2 t,
    update g ips main_connection logging_level (stop s).2 = (Ok (true, None), s2)
    /\ trace s2 = trace (stop s).2 ++ t
    /\ calls_in t = [EDBusCall (Some c) (Some o) (Some (build_update_args g ips))
                       (S (fresh s))]
    /\ (forall x, x ∈ t -> is_discovery x = false)
    /\ name_owner_changed_id (priv s2) = 0
    /\ name_owner (priv s2) = Some o.
Proof.
  destruct s as [[conn uc no id nc la] fr tr]. simpl. intros -> ->.
  rewrite stop_spec. cbn [snd]. rewrite update_spec. cbv zeta.
  rewrite ensure_all_connected_spec. cbn [connection_after]. rewrite send_spec.
  eexists _, _. split; [reflexivity|]. simpl.
  rewrite <- !app_assoc. split; [reflexivity|].
  pose proof (update_logs_local g logging_level (build_update_args g ips)) as Hl.
  split. { rewrite calls_in_app, (calls_in_local _ Hl). done. }
  split; [|done].
  intros x Hx. call_inv Hx; try done.
  apply update_logs_no_call in Hx. by destruct x.
Qed.

Lemma owner_reported_other w e o :
  reports_owner e = Some o -> name_owner (plugin w) <> Some o ->
  EDBusCall (dbus_connection (plugin w)) (Some o)
    (latest_update_args (plugin w)) (S (last_id w)) ∈ emitted w e.
Proof.
  intros Ho Hno. unfold emitted.
  destruct w as [[conn uc no id nc la] lid can cs ls ss]. simpl in *.
  assert (Hchg : forall x, nm_str_not_empty x = Some o ->
    EDBusCall conn (Some o) la (S lid)
    ∈ trace (name_owner_changed x (mkSt (mkPriv conn uc no id nc la) lid [])).2).
  { intros x Hx. rewrite name_owner_changed_spec, Hx.
    destruct (nm_streq0 no (Some o)) eqn:E.
    { by apply nm_streq0_true in E. }
    simpl. destruct uc; simpl; set_solver. }
  unfold run_event, handler, get_name_owner_cb, name_owner_changed_cb.
  cbn [plugin last_id].
  destruct e as [| |c resp err|c x err|i [n old new|]]; try done; simpl in Ho.
  - destruct x as [x|]; [|done]. simpl. by apply Hchg.
  - by apply Hchg.
Qed.

(** X13: in every world the main loop reaches, when a lookup completion or a
    signal reports an owner that is not empty and differs from the cached one
    (absent or another owner), the plugin issues exactly one call, to the new
    owner and with the retained message, which is present; every call from
    before is cancelled and the new call is the only live one. *)
Theorem X13_owner_replaced (w : World) (e : Event) (o : string) :
  reachable w -> enabled w e ->
  reports_owner e = Some o -> name_owner (plugin w) <> Some o ->
  calls_in (emitted w e)
  = [EDBusCall (dbus_connection (plugin w)) (Some o)
       (latest_update_args (plugin w)) (S (last_id w))]
  /\ name_owner (plugin (step w e)) = Some o
  /\ live_calls (step w e) = [S (last_id w)]
  /\ (forall c, c ∈ calls w -> c ∈ cancelled (step w e))
  /\ is_Some (latest_update_args (plugin w)).
Proof.
  intros Hr He Ho Hno. pose proof (reachable_Inv w Hr) as HI.
  pose proof (owner_reported_other w e o Ho Hno) as Hin.
  destruct (emitted_call_facts w e HI He _ _ _ _ Hin)
    as (_ & Hbn & _ & Hla & Hsome & _ & _ & Hold & Hcalls & Hlive).
  by repeat split.
Qed.

Lemma latest_run evs w :
  latest_update_args (plugin (run_events evs w))
  = fold_left
      (fun acc e =>
         match e with
         | EvUpdate g ips _ _ => Some (build_update_args g ips)
         | _ => acc
         end) evs (latest_update_args (plugin w)).
Proof.
  revert w. induction evs as [|e evs IH]; intros w; simpl; [done|].
  unfold run_events in *. rewrite IH. f_equal.
  destruct e as [g ips main lvl| | | |];
    try (by apply latest_step_other).
  by rewrite plugin_step, run_event_update, update_latest.
Qed.

Lemma enabled_run_reachable evs w :
  reachable w -> enabled_run evs w = true -> reachable (run_events evs w).
Proof.
  revert w. induction evs as [|e evs IH]; intros w Hr Hen; simpl in *; [done|].
  apply andb_prop in Hen as [He Hen]. apply IH; [|done]. by apply reachable_step.
Qed.

Lemma enabled_run_app evs e w :
  enabled_run (evs ++ [e]) w = true ->
  enabled_run evs w = true /\ enabled (run_events evs w) e.
Proof.
  revert w. induction evs as [|a evs IH]; intros w; simpl.
  - rewrite andb_true_r. done.
  - intros [Ha Hr]%andb_prop. destruct (IH _ Hr) as [? ?].
    split; [by apply andb_true_intro|done].
Qed.

(** X14: after any sequence of events the retained message is the one built
    by the last [update] of the sequence, and when every event of the sequence
    could be delivered, a call issued by the last event carries that
    message. *)
Theorem X14_latest_configuration_wins (evs : list Event) (e : Event) :
  latest_update_args (plugin (run_events evs world_init)) = last_update_args evs
  /\ (enabled_run (evs ++ [e]) world_init = true ->
      forall conn bus_name args c,
        EDBusCall conn bus_name args c ∈ emitted (run_events evs world_init) e ->
        args = last_update_args (evs ++ [e]) /\ is_Some args).
Proof.
  split; [apply latest_run|].
  intros [Hen He]%enabled_run_app conn bn args c Hin.
  pose proof (enabled_run_reachable evs world_init reachable_init Hen) as Hr.
  destruct (emitted_call_facts _ e (reachable_Inv _ Hr) He _ _ _ _ Hin)
    as (_ & _ & _ & Hla & Hsome & _).
  split; [|done]. rewrite Hla.
  pose proof (latest_run (evs ++ [e]) world_init) as H.
  unfold run_events in *. rewrite fold_left_app in H. exact H.
Qed.
End PluginMore.

Lemma X6_pending_tracks_call_witness :
  get_update_pending (mkSt (plugin world_owner_known) 3 [])
  = (Ok true, mkSt (plugin world_owner_known) 3 []).
Proof.
  assert (Hr : @reachable sample world_owner_known) by reach_owner_known.
  exact (proj2 (@X6_pending_tracks_call sample world_owner_known 3 [] Hr)).
Defined.

Lemma X7_no_duplicate_discovery_witness :
  length (subscriptions world_owner_known) <= 1.
Proof.
  assert (Hr : @reachable sample world_owner_known) by reach_owner_known.
  exact (proj1 (@X7_no_duplicate_discovery sample world_owner_known Hr)).
Defined.

Lemma X8_ensure_all_connected_idempotent_witness :
  ensure_all_connected None (ensure_all_connected (Some 7) (mkSt priv_init 0 [])).2
  = ensure_all_connected (Some 7) (mkSt priv_init 0 []).
Proof.
  apply X8_ensure_all_connected_idempotent. vm_compute. discriminate.
Defined.

Lemma X9_connection_present_witness :
  dbus_connection
    (plugin (@step sample world_waiting (EvGetNameOwnerDone 2 (Some ":1.5") None)))
  = Some 7.
Proof.
  assert (Hr : @reachable sample world_waiting) by reach_waiting.
  assert (He : enabled world_waiting (EvGetNameOwnerDone 2 (Some ":1.5") None))
    by (vm_compute; reflexivity).
  apply (proj2 (@X9_connection_present sample world_waiting _ Hr He)).
  reflexivity.
Defined.

Lemma X10_owner_lost_witness :
  name_owner (priv (name_owner_changed (Some "") st_call_outstanding).2) = None
  /\ update_cancellable (priv (name_owner_changed (Some "") st_call_outstanding).2)
     = Some 3.
Proof.
  rewrite (proj1 (X10_owner_lost st_call_outstanding ":1.5" (Some "")
                    eq_refl eq_refl)).
  split; reflexivity.
Defined.

Lemma X11_reply_completes_call_witness :
  live_calls (@step sample world_owner_known
                (EvUpdateDone 3 (Some (false, "no such interface")) None)) = [].
Proof.
  assert (Hr : @reachable sample world_owner_known) by reach_owner_known.
  assert (He : enabled world_owner_known
                 (EvUpdateDone 3 (Some (false, "no such interface")) None))
    by (vm_compute; reflexivity).
  assert (Hc : 3 ∉ cancelled world_owner_known).
  { apply (bool_decide_unpack _). vm_compute. exact I. }
  exact (proj1 (proj2 (@X11_reply_completes_call sample world_owner_known 3 false
                         "no such interface" None Hr He Hc))).
Defined.

Lemma X12_update_after_stop_witness :
  exists s2 t,
    @update sample None [] None LOGL_INFO (stop st_call_outstanding).2
    = (Ok (true, None), s2)
    /\ trace s2 = trace (stop st_call_outstanding).2 ++ t
    /\ name_owner_changed_id (priv s2) = 0.
Proof.
  destruct (@X12_update_after_stop sample st_call_outstanding ":1.5" 7 None []
              None LOGL_INFO eq_refl eq_refl)
    as (s2 & t & H1 & H2 & _ & _ & H3 & _).
  by exists s2, t.
Defined.

Lemma X13_owner_replaced_witness :
  live_calls (@step sample world_owner_known
                (EvNameOwnerChanged 1 (ParametersSSS "com.redhat.dnsconfd" ":1.5" ":1.9")))
  = [4].
Proof.
  assert (Hr : @reachable sample world_owner_known) by reach_owner_known.
  assert (He : enabled world_owner_known
                 (EvNameOwnerChanged 1
                    (ParametersSSS "com.redhat.dnsconfd" ":1.5" ":1.9")))
    by (vm_compute; reflexivity).
  refine (proj1 (proj2 (proj2 (@X13_owner_replaced sample world_owner_known _ ":1.9"
                                 Hr He eq_refl _)))).
  vm_compute. discriminate.
Defined.

Lemma X14_latest_configuration_wins_witness :
  Some (@build_update_args sample None [ip_data_scenario])
  = @last_update_args sample
      [EvUpdate None [ip_data_scenario] (Some 7) LOGL_INFO;
       EvGetNameOwnerDone 2 (Some ":1.5") None].
Proof.
  assert (Hin : EDBusCall (Some 7) (Some ":1.5")
                  (Some (@build_update_args sample None [ip_data_scenario])) 3
                ∈ @emitted sample world_waiting
                    (EvGetNameOwnerDone 2 (Some ":1.5") None)).
  { vm_compute. right. left. }
  refine (proj1 (proj2 (@X14_latest_configuration_wins sample
            [EvUpdate None [ip_data_scenario] (Some 7) LOGL_INFO]
            (EvGetNameOwnerDone 2 (Some ":1.5") None)) _ _ _ _ _ Hin)).
  vm_compute. reflexivity.
Defined.
